(** * createUtils: token registry, layer store and initialization coordinator

    A shallow embedding of [packages/plugin-utils/src/createUtils.ts].

    The closure variables of [createUtils] become the fields of one [State]
    record that every operation takes and returns.  JavaScript [Set]s and
    [Map]s iterate in insertion order and the code relies on it
    ([Array.from(classesPending).join(' ')], [layerStylesMap.values()]), so
    they are modelled as duplicate-free lists and association lists that keep
    that order.  Calls that leave the module (the style compiler, the style
    sheet builder, the user hooks, the option resolver) are recorded in a
    trace, which is how "executed exactly once" is stated. *)

From Stdlib Require Import ZArith Ascii.
From stdpp Require Import base tactics option list strings gmap.

Local Open Scope string_scope.

(** ** JavaScript [Set<string>] *)

Module JsSet.

(** [s.has(x)] *)
Definition has (s : list string) (x : string) : bool := bool_decide (x ∈ s).

(** [s.add(x)]: a new element goes to the end of the iteration order. *)
Definition add (x : string) (s : list string) : list string :=
  if has s x then s else s ++ [x].

(** [s.delete(x)] *)
Definition del (x : string) (s : list string) : list string :=
  filter (λ y, y ≠ x) s.

(** [s.size] *)
Definition size (s : list string) : nat := length s.

End JsSet.

(** ** JavaScript [Map<string, V>] *)

Module JsMap.
Section JsMap.
Context {V : Type}.

(** [m.get(k)] *)
Fixpoint get (m : list (string * V)) (k : string) : option V :=
  match m with
  | [] => None
  | (k', v) :: m' => if decide (k' = k) then Some v else get m' k
  end.

(** [m.set(k, v)]: an existing key keeps its place, a new one goes last. *)
Fixpoint set (k : string) (v : V) (m : list (string * V)) : list (string * V) :=
  match m with
  | [] => [(k, v)]
  | (k', v') :: m' =>
      if decide (k' = k) then (k, v) :: m' else (k', v') :: set k v m'
  end.

(** [Array.from(m.values())] *)
Definition values (m : list (string * V)) : list V := m.*2.

End JsMap.
End JsMap.

(** ** Helpers of [./utils] *)

(** Modelled from the spec: [include] of [./utils] is not among the sources.
    The spec has [clearCache] "re-queue" the generated tokens "into
    [Pending]" and "add" the safelist tokens to [Pending] through it: every
    listed token is added to the target set, in order. *)
Definition include (s : list string) (v : list string) : list string :=
  foldl (λ acc i, JsSet.add i acc) s v.

(** Modelled from the spec: [exclude] of [./utils] is not among the sources.
    The spec has [clearCache] take the universe "minus" the excluded tags
    through it: every listed token is deleted from the target set. *)
Definition exclude (s : list string) (v : list string) : list string :=
  foldl (λ acc i, JsSet.del i acc) s v.

(** ** Layers and style nodes *)

Inductive LayerName := Base | Utilities | Components.

#[global] Instance LayerName_eq_dec : EqDecision LayerName.
Proof. solve_decision. Defined.

Definition layer_string (n : LayerName) : string :=
  match n with
  | Base => "base"
  | Utilities => "utilities"
  | Components => "components"
  end.

(** A [Style] of windicss.  Only [meta.type] is read here; [rule] stands for
    the rest of the node. *)
Record Style := mkStyle { meta_type : string; rule : string }.

Record LayerMeta := mkLayerMeta {
  cssCache : option string;
  timestamp : option Z
}.

(** The object literal [{}]. *)
Definition emptyMeta : LayerMeta := mkLayerMeta None None.

(** [Record<LayerName, LayerMeta>] *)
Record Layers := mkLayers {
  l_base : LayerMeta;
  l_utilities : LayerMeta;
  l_components : LayerMeta
}.

(** [layers[name]] for a layer name. *)
Definition layer_get (ls : Layers) (n : LayerName) : LayerMeta :=
  match n with
  | Base => l_base ls
  | Utilities => l_utilities ls
  | Components => l_components ls
  end.

Definition layer_set (n : LayerName) (m : LayerMeta) (ls : Layers) : Layers :=
  match n with
  | Base => mkLayers m (l_utilities ls) (l_components ls)
  | Utilities => mkLayers (l_base ls) m (l_components ls)
  | Components => mkLayers (l_base ls) (l_utilities ls) m
  end.

(** The key of [layers] that a [meta.type] string names; any other string
    reads [undefined] from [layers]. *)
Definition layer_of_string (x : string) : option LayerName :=
  if decide (x = "base") then Some Base
  else if decide (x = "utilities") then Some Utilities
  else if decide (x = "components") then Some Components
  else None.

(** ** Options and the external style compiler *)

Record PreflightOptions := mkPreflightOptions {
  includeAll : bool;
  includeBase : bool;
  includeGlobal : bool;
  includePlugin : bool;
  pf_safelist : list string;
  pf_blocklist : list string;
  alias : gmap string string
}.

Record ResolvedOptions := mkOptions {
  enablePreflight : bool;
  sortUtilities : bool;
  safelist : list string;
  blocklist : list string;
  preflightOptions : PreflightOptions;
  (** [options.config.prefixer], possibly absent *)
  config_prefixer : option bool;
  (** whether the optional hooks are set *)
  has_onBeforeGenerate : bool;
  has_onGenerated : bool;
  has_onInitialized : bool
}.

(** The result of [processor.interpret]. *)
Record InterpretResult := mkInterpretResult {
  success : list string;
  styleSheet_children : list Style
}.

(** The windicss [Processor], as far as [createUtils] calls it. *)
Record Processor := mkProcessor {
  interpret : string → InterpretResult;
  preflight : option string → bool → bool → bool → list Style;
  generateCompletions : list string
}.

(** ** Promises of [_init] and calls that leave the module *)

Inductive PromiseState :=
| Pending
| Fulfilled (p : Processor)
| Rejected (reason : string).

Inductive Event :=
| EvResolveOptions (promise : nat)
| EvOnInitialized
| EvInterpret (input : string)
| EvPreflight (html : option string) (incBase incGlobal incPlugin : bool)
| EvOnBeforeGenerate (classes tags : list string)
| EvOnGenerated (classes tags : list string)
| EvBuildSheet (name : LayerName) (prefixer sort : bool) (children : list Style).

(** ** The state closed over by [createUtils] *)

Record State := mkState {
  options : ResolvedOptions;
  processor : option Processor;
  completions : option (list string);
  files : list string;
  classesGenerated : list string;
  classesPending : list string;
  tagsGenerated : list string;
  tagsPending : list string;
  attrsGenerated : list string;
  tagsAvailable : list string;
  layers : Layers;
  layerStylesMap : list (string * list Style);
  _promise_init : option nat;
  promises : list PromiseState;
  trace : list Event
}.

Definition with_classes (gen pend : list string) (s : State) : State :=
  mkState (options s) (processor s) (completions s) (files s)
    gen pend (tagsGenerated s) (tagsPending s) (attrsGenerated s)
    (tagsAvailable s) (layers s) (layerStylesMap s) (_promise_init s)
    (promises s) (trace s).

Definition with_tags (gen pend avail : list string) (s : State) : State :=
  mkState (options s) (processor s) (completions s) (files s)
    (classesGenerated s) (classesPending s) gen pend (attrsGenerated s)
    avail (layers s) (layerStylesMap s) (_promise_init s)
    (promises s) (trace s).

Definition with_layers (ls : Layers) (m : list (string * list Style))
    (s : State) : State :=
  mkState (options s) (processor s) (completions s) (files s)
    (classesGenerated s) (classesPending s) (tagsGenerated s) (tagsPending s)
    (attrsGenerated s) (tagsAvailable s) ls m (_promise_init s)
    (promises s) (trace s).

Definition with_completions (c : option (list string)) (s : State) : State :=
  mkState (options s) (processor s) c (files s)
    (classesGenerated s) (classesPending s) (tagsGenerated s) (tagsPending s)
    (attrsGenerated s) (tagsAvailable s) (layers s) (layerStylesMap s)
    (_promise_init s) (promises s) (trace s).

Definition with_attrs (a : list string) (s : State) : State :=
  mkState (options s) (processor s) (completions s) (files s)
    (classesGenerated s) (classesPending s) (tagsGenerated s) (tagsPending s)
    a (tagsAvailable s) (layers s) (layerStylesMap s)
    (_promise_init s) (promises s) (trace s).

Definition with_init (o : ResolvedOptions) (p : option Processor)
    (f : list string) (s : State) : State :=
  mkState o p (completions s) f
    (classesGenerated s) (classesPending s) (tagsGenerated s) (tagsPending s)
    (attrsGenerated s) (tagsAvailable s) (layers s) (layerStylesMap s)
    (_promise_init s) (promises s) (trace s).

Definition with_promises (pi : option nat) (ps : list PromiseState)
    (s : State) : State :=
  mkState (options s) (processor s) (completions s) (files s)
    (classesGenerated s) (classesPending s) (tagsGenerated s) (tagsPending s)
    (attrsGenerated s) (tagsAvailable s) (layers s) (layerStylesMap s)
    pi ps (trace s).

(** Record one call that leaves the module. *)
Definition emit (e : Event) (s : State) : State :=
  mkState (options s) (processor s) (completions s) (files s)
    (classesGenerated s) (classesPending s) (tagsGenerated s) (tagsPending s)
    (attrsGenerated s) (tagsAvailable s) (layers s) (layerStylesMap s)
    (_promise_init s) (promises s) (trace s ++ [e]).

(** The state of a fresh [createUtils] whose options are [o]: every set and
    map empty, no processor, no initialization started.  (Before the first
    initialization the code holds an empty options object; every entry point
    of the plugin awaits [ensureInit] before it reads an option, so the
    operations below are given the resolved options.) *)
Definition initial (o : ResolvedOptions) : State :=
  mkState o None None [] [] [] [] [] [] []
    (mkLayers emptyMeta emptyMeta emptyMeta) [] None [] [].

(** ** The operations of [createUtils] *)

Section CreateUtils.

(** [htmlTags] and [preflightTags] of [./constants] and [kebabCase] of
    [./utils], which are not among the sources. *)
Variable htmlTags : list string.
Variable preflightTags : list string.
Variable kebabCase : string → string.

(** The windicss style sheet: [new StyleSheet(children)] with its
    [prefixer] flag set, sorted when asked, then [build()]. *)
Variable buildSheet : bool → bool → list Style → string.

(** [new Processor(options.config)] *)
Variable newProcessor : ResolvedOptions → Processor.

(** [String.prototype.trim] *)
Variable trim : string → string.

(** *** Token registry *)

Definition addClasses_token (acc : bool * State) (i : string) : bool * State :=
  let '(changed, s) := acc in
  if bool_decide (i = "")
     || JsSet.has (classesGenerated s) i
     || JsSet.has (classesPending s) i
     || JsSet.has (blocklist (options s)) i
  then acc
  else (true, with_classes (classesGenerated s)
                (JsSet.add i (classesPending s)) s).

Definition addClasses (classes : list string) (s : State) : bool * State :=
  foldl addClasses_token (false, s) classes.

(** The tag after the alias lookup: [None] is [undefined], which no set of
    strings holds. *)
Definition resolveTag (s : State) (tag : string) : option string :=
  if JsSet.has (tagsAvailable s) tag then Some tag
  else alias (preflightOptions (options s)) !! kebabCase tag.

Definition addTags_tag (acc : bool * State) (tag : string) : bool * State :=
  let '(changed, s) := acc in
  match resolveTag s tag with
  | None => acc
  | Some tag =>
      if JsSet.has (pf_blocklist (preflightOptions (options s))) tag
      then acc
      else if JsSet.has (tagsAvailable s) tag
              && negb (JsSet.has (tagsPending s) tag)
      then (true, with_tags (tagsGenerated s)
                    (JsSet.add tag (tagsPending s))
                    (JsSet.del tag (tagsAvailable s)) s)
      else acc
  end.

Definition addTags (tags : list string) (s : State) : bool * State :=
  foldl addTags_tag (false, s) tags.

Definition clearCache (clearAll : bool) (s : State) : State :=
  let pf := preflightOptions (options s) in
  let s := with_layers (mkLayers emptyMeta emptyMeta emptyMeta)
             (layerStylesMap s) s in
  let s := with_completions None s in
  let s :=
    if clearAll then
      let s := with_classes (classesGenerated s) [] s in
      with_tags (tagsGenerated s) [] [] s
    else
      let s := with_classes (classesGenerated s)
                 (include (classesPending s) (classesGenerated s)) s in
      let s := with_tags (tagsGenerated s)
                 (include (tagsPending s) (tagsGenerated s))
                 (tagsAvailable s) s in
      let s := with_tags (tagsGenerated s)
                 (include (tagsPending s) preflightTags)
                 (tagsAvailable s) s in
      with_tags (tagsGenerated s) (tagsPending s)
        (include (tagsAvailable s) htmlTags) s in
  let s := with_classes (classesGenerated s)
             (include (classesPending s) (safelist (options s))) s in
  let s := with_tags (tagsGenerated s)
             (include (tagsPending s) (pf_safelist pf))
             (tagsAvailable s) s in
  let s := with_tags (tagsGenerated s) (tagsPending s)
             (exclude (tagsAvailable s) preflightTags) s in
  let s := with_tags (tagsGenerated s) (tagsPending s)
             (exclude (tagsAvailable s) (pf_safelist pf)) s in
  let s := with_classes [] (classesPending s) s in
  let s := with_tags [] (tagsPending s) (tagsAvailable s) s in
  with_attrs [] s.

(** *** Layer store *)

(** [styles.forEach(i => changedLayers.add(i.meta.type))] *)
Definition addTypes (styles : list Style) (changedLayers : list string)
    : list string :=
  foldl (λ acc i, JsSet.add (meta_type i) acc) changedLayers styles.

(** The loop over [changedLayers]: a name that is a key of [layers] has its
    entry stamped and its cache dropped. *)
Definition invalidate (now : Z) (changedLayers : list string) (ls : Layers)
    : Layers :=
  foldl (λ ls name,
           match layer_of_string name with
           | Some n => layer_set n (mkLayerMeta None (Some now)) ls
           | None => ls
           end) ls changedLayers.

(** [now] is the value of [Date.now()] at the call. *)
Definition updateLayers (now : Z) (styles : list Style) (filepath : string)
    (replace : bool) (s : State) : State :=
  let changedLayers := addTypes styles [] in
  let '(changedLayers, m) :=
    if replace then
      (match JsMap.get (layerStylesMap s) filepath with
       | Some prev => addTypes prev changedLayers
       | None => changedLayers
       end,
       JsMap.set filepath styles (layerStylesMap s))
    else
      let prevStyles := default [] (JsMap.get (layerStylesMap s) filepath) in
      (changedLayers,
       JsMap.set filepath (prevStyles ++ styles)%list (layerStylesMap s)) in
  with_layers (invalidate now changedLayers (layers s)) m s.

Definition newline : string := String (Ascii.ascii_of_nat 10) "".

Definition banner (name : LayerName) : string :=
  "/* windicss layer " +:+ layer_string name +:+ " */" +:+ newline.

(** The children given to [new StyleSheet] for a layer. *)
Definition layerChildren (name : LayerName) (s : State) : list Style :=
  filter (λ i, meta_type i = layer_string name)
    (concat (JsMap.values (layerStylesMap s))).

Definition buildLayerCss (name : LayerName) (s : State) : string * State :=
  let layer := layer_get (layers s) name in
  match cssCache layer with
  | Some css => (css, s)
  | None =>
      let children := layerChildren name s in
      let prefixer := default true (config_prefixer (options s)) in
      let sort := sortUtilities (options s) in
      let css := banner name +:+ buildSheet prefixer sort children in
      let s := emit (EvBuildSheet name prefixer sort children) s in
      (css, with_layers
              (layer_set name (mkLayerMeta (Some css) (timestamp layer))
                 (layers s))
              (layerStylesMap s) s)
  end.

(** *** Compiler bridge *)

(** The [if (classesPending.size)] block of [buildPendingStyles].  [None]
    is the [TypeError] of calling a method of an undefined [processor]. *)
Definition compileClasses (now : Z) (s : State) : option State :=
  if bool_decide (JsSet.size (classesPending s) = 0) then Some s
  else
    p ← processor s;
    let input := String.concat " " (classesPending s) in
    let result := interpret p input in
    let s := emit (EvInterpret input) s in
    if bool_decide (length (success result) = 0) then Some s
    else
      let s := updateLayers now (styleSheet_children result)
                 "__classes" false s in
      let s := with_classes (include (classesGenerated s) (success result))
                 (classesPending s) s in
      Some (with_classes (classesGenerated s) [] s).

(** The [if (options.enablePreflight)] block of [buildPendingStyles]. *)
Definition compileTags (now : Z) (s : State) : option State :=
  let pf := preflightOptions (options s) in
  if enablePreflight (options s) then
    if includeAll pf || negb (bool_decide (JsSet.size (tagsPending s) = 0))
    then
      p ← processor s;
      let html :=
        if includeAll pf then None
        else Some (String.concat " "
                     (map (λ i, "<" +:+ i +:+ "/>") (tagsPending s))) in
      let children :=
        preflight p html (includeBase pf) (includeGlobal pf)
          (includePlugin pf) in
      let s := emit (EvPreflight html (includeBase pf) (includeGlobal pf)
                       (includePlugin pf)) s in
      let s := updateLayers now children "__preflights" false s in
      let s := with_tags (include (tagsGenerated s) (tagsPending s))
                 (tagsPending s) (tagsAvailable s) s in
      Some (with_tags (tagsGenerated s) [] (tagsAvailable s) s)
    else Some s
  else Some s.

(** [now1] and [now2] are the clock readings of the two [updateLayers]
    calls. *)
Definition buildPendingStyles (now1 now2 : Z) (s : State) : option State :=
  let s :=
    if has_onBeforeGenerate (options s)
    then emit (EvOnBeforeGenerate (classesPending s) (tagsPending s)) s
    else s in
  s ← compileClasses now1 s;
  s ← compileTags now2 s;
  Some (if has_onGenerated (options s)
        then emit (EvOnGenerated (classesGenerated s) (tagsGenerated s)) s
        else s).

(** [generateCSS] after its awaits ([ensureInit] and the start-up scan). *)
Definition generateCSS (now1 now2 : Z) (layer : option LayerName)
    (s : State) : option (string * State) :=
  s ← buildPendingStyles now1 now2 s;
  match layer with
  | Some layer => Some (buildLayerCss layer s)
  | None =>
      let '(b, s) := buildLayerCss Base s in
      let '(c, s) := buildLayerCss Components s in
      let '(u, s) := buildLayerCss Utilities s in
      Some (trim (String.concat newline [b; c; u]), s)
  end.

Definition getCompletions (s : State) : option (list string * State) :=
  match completions s with
  | Some c => Some (c, s)
  | None =>
      p ← processor s;
      let c := generateCompletions p in
      Some (c, with_completions (Some c) s)
  end.

(** *** Initialization coordinator *)

(** A call of the async function [_init]: it runs up to its first [await],
    the call of [resolveOptions], and hands back a pending promise. *)
Definition _init_call (s : State) : nat * State :=
  let pid := length (promises s) in
  (pid, emit (EvResolveOptions pid)
          (with_promises (_promise_init s) (promises s ++ [Pending]) s)).

Definition settle (pid : nat) (r : PromiseState) (s : State) : State :=
  with_promises (_promise_init s) (<[pid := r]> (promises s)) s.

(** The rest of [_init], run when [resolveOptions] settles: with a
    rejection ([inl]) the promise of [_init] rejects and nothing else
    happens; with the resolved options ([inr]) the body runs to its end,
    neither the constructor of the processor nor the hook throwing.
    [_init_finish], further down, has the outcomes in which they throw. *)
Definition _init_resume (pid : nat) (r : string + ResolvedOptions)
    (s : State) : State :=
  match r with
  | inl reason => settle pid (Rejected reason) s
  | inr o =>
      let p := newProcessor o in
      let s := with_init o (Some p) [] s in
      let s := clearCache false s in
      let s := if has_onInitialized o then emit EvOnInitialized s else s in
      settle pid (Fulfilled p) s
  end.

Definition init (s : State) : nat * State :=
  let '(pid, s) := _init_call s in
  (pid, with_promises (Some pid) (promises s) s).

(** What the promise returned by [ensureInit] is resolved with: the
    processor itself, or the promise of an [_init] call. *)
Inductive Awaited :=
| Ready (p : Processor)
| Follows (pid : nat).

Definition ensureInit (s : State) : Awaited * State :=
  match processor s with
  | Some p => (Ready p, s)
  | None =>
      match _promise_init s with
      | None =>
          let '(pid, s) := _init_call s in
          (Follows pid, with_promises (Some pid) (promises s) s)
      | Some pid => (Follows pid, s)
      end
  end.

(** *** Sequences of calls *)

(** Calls of the tag registry. *)
Inductive TagCall :=
| TagAdd (tags : list string)
| TagClear (clearAll : bool).

Definition runTagCall (s : State) (c : TagCall) : State :=
  match c with
  | TagAdd tags => (addTags tags s).2
  | TagClear clearAll => clearCache clearAll s
  end.

Definition runTagCalls (cs : list TagCall) (s : State) : State :=
  foldl runTagCall s cs.

(** Calls of the class registry. *)
Inductive ClassCall :=
| ClassAdd (classes : list string)
| ClassClear (clearAll : bool).

Definition runClassCall (s : State) (c : ClassCall) : State :=
  match c with
  | ClassAdd classes => (addClasses classes s).2
  | ClassClear clearAll => clearCache clearAll s
  end.

Definition runClassCalls (cs : list ClassCall) (s : State) : State :=
  foldl runClassCall s cs.

(** Calls of the layer store. *)
Inductive LayerCall :=
| LayerUpdate (now : Z) (styles : list Style) (filepath : string)
    (replace : bool)
| LayerBuild (name : LayerName).

Definition runLayerCall (s : State) (c : LayerCall) : State :=
  match c with
  | LayerUpdate now styles filepath replace =>
      updateLayers now styles filepath replace s
  | LayerBuild name => (buildLayerCss name s).2
  end.

Definition runLayerCalls (cs : list LayerCall) (s : State) : State :=
  foldl runLayerCall s cs.

(** Every operation of the module.  [InitSettles] is the continuation of
    an [_init] call, run when its [resolveOptions] settles. *)
Inductive Call :=
| CallAddClasses (classes : list string)
| CallAddTags (tags : list string)
| CallClearCache (clearAll : bool)
| CallUpdateLayers (now : Z) (styles : list Style) (filepath : string)
    (replace : bool)
| CallBuildLayerCss (name : LayerName)
| CallBuildPendingStyles (now1 now2 : Z)
| CallGenerateCSS (now1 now2 : Z) (layer : option LayerName)
| CallGetCompletions
| CallInit
| CallEnsureInit
| InitSettles (pid : nat) (r : string + ResolvedOptions).

(** [None] when the call throws. *)
Definition runCall (c : Call) (s : State) : option State :=
  match c with
  | CallAddClasses classes => Some (addClasses classes s).2
  | CallAddTags tags => Some (addTags tags s).2
  | CallClearCache clearAll => Some (clearCache clearAll s)
  | CallUpdateLayers now styles filepath replace =>
      Some (updateLayers now styles filepath replace s)
  | CallBuildLayerCss name => Some (buildLayerCss name s).2
  | CallBuildPendingStyles now1 now2 => buildPendingStyles now1 now2 s
  | CallGenerateCSS now1 now2 layer => snd <$> generateCSS now1 now2 layer s
  | CallGetCompletions => snd <$> getCompletions s
  | CallInit => Some (init s).2
  | CallEnsureInit => Some (ensureInit s).2
  | InitSettles pid r => Some (_init_resume pid r s)
  end.

Fixpoint runCalls (cs : list Call) (s : State) : option State :=
  match cs with
  | [] => Some s
  | c :: cs => s ← runCall c s; runCalls cs s
  end.

(** *** Vocabulary of the properties *)

Definition disjointSets (a b : list string) : Prop :=
  ∀ x, x ∈ a → x ∈ b → False.

(** The three tag sets partition the universe [U]. *)
Definition tagsPartition (U : list string) (s : State) : Prop :=
  disjointSets (tagsAvailable s) (tagsPending s)
  ∧ disjointSets (tagsAvailable s) (tagsGenerated s)
  ∧ disjointSets (tagsPending s) (tagsGenerated s)
  ∧ (∀ x, (x ∈ tagsAvailable s ∨ x ∈ tagsPending s ∨ x ∈ tagsGenerated s)
          ↔ x ∈ U).

(** Every tag the registry can hold. *)
Definition tagUniverse (o : ResolvedOptions) : list string :=
  (htmlTags ++ preflightTags ++ pf_safelist (preflightOptions o))%list.

(** The tags [clearCache] lets into [tagsAvailable]. *)
Definition availableTag (o : ResolvedOptions) (x : string) : Prop :=
  x ∈ htmlTags ∧ (x ∉ preflightTags)
  ∧ (x ∉ pf_safelist (preflightOptions o)).

(** One tag moved from [tagsAvailable] to [tagsPending]. *)
Definition moveTag (t : string) (s : State) : State :=
  with_tags (tagsGenerated s) (JsSet.add t (tagsPending s))
    (JsSet.del t (tagsAvailable s)) s.

(** What holds of the tag sets after any calls on options [o]. *)
Definition tagsBounded (o : ResolvedOptions) (s : State) : Prop :=
  options s = o
  ∧ tagsGenerated s = []
  ∧ (∀ x, x ∈ tagsAvailable s → availableTag o x)
  ∧ (∀ x, x ∈ tagsPending s → x ∈ tagUniverse o).

(** What holds as long as no tag was requested since the last reset. *)
Definition tagsUnrequested (o : ResolvedOptions) (s : State) : Prop :=
  ∀ x, x ∈ tagsPending s →
       x ∈ preflightTags ∨ x ∈ pf_safelist (preflightOptions o).

Definition tagsCover (o : ResolvedOptions) (s : State) : Prop :=
  ∀ x, (x ∈ tagsAvailable s ∨ x ∈ tagsPending s)
       ↔ x ∈ tagUniverse o.

Definition isTagClear (c : TagCall) : Prop :=
  match c with TagClear _ => True | TagAdd _ => False end.

Definition isTagAdd (c : TagCall) : Prop :=
  match c with TagAdd _ => True | TagClear _ => False end.

(** Any call but [clearCache(true)]. *)
Definition notFullClear (c : TagCall) : Prop :=
  match c with TagClear true => False | _ => True end.

(** The sequence is empty or ends with [clearCache(true)]. *)
Definition endsWithFullClear (cs : list TagCall) : Prop :=
  cs = [] ∨ last cs = Some (TagClear true).

(** Every [clearCache(false)] of the sequence, run from [s], is called
    while [tagsPending] holds no tag that it puts into [tagsAvailable]. *)
Fixpoint quietClears (o : ResolvedOptions) (cs : list TagCall) (s : State)
    : Prop :=
  match cs with
  | [] => True
  | c :: cs =>
      match c with
      | TagClear false => Forall (λ x, ¬ availableTag o x) (tagsPending s)
      | _ => True
      end
      ∧ quietClears o cs (runTagCall s c)
  end.

(** The tokens [addClasses] does not skip. *)
Definition insertable (s : State) (i : string) : bool :=
  negb (bool_decide (i = "")
        || JsSet.has (classesGenerated s) i
        || JsSet.has (classesPending s) i
        || JsSet.has (blocklist (options s)) i).

(** The layers an [updateLayers] call invalidates, by [meta.type]. *)
Definition touchedLayers (styles : list Style) (filepath : string)
    (replace : bool) (s : State) : list string :=
  addTypes
    (if replace then default [] (JsMap.get (layerStylesMap s) filepath)
     else [])
    (addTypes styles []).

Definition touches (name : LayerName) (c : LayerCall) (s : State) : bool :=
  match c with
  | LayerUpdate _ styles filepath replace =>
      JsSet.has (touchedLayers styles filepath replace s) (layer_string name)
  | LayerBuild _ => false
  end.

(** No call of the sequence invalidates the layer. *)
Fixpoint untouched (name : LayerName) (cs : list LayerCall) (s : State)
    : bool :=
  match cs with
  | [] => true
  | c :: cs => negb (touches name c s) && untouched name cs (runLayerCall s c)
  end.

(** How many times the style sheet of a layer was built. *)
Definition isBuildOf (name : LayerName) (e : Event) : bool :=
  match e with
  | EvBuildSheet n _ _ _ => bool_decide (n = name)
  | _ => false
  end.

Definition buildCount (name : LayerName) (t : list Event) : nat :=
  length (filter (λ e, isBuildOf name e = true) t).

(** How many times the initialization routine was entered. *)
Definition isInitStart (e : Event) : bool :=
  match e with EvResolveOptions _ => true | _ => false end.

Definition initCount (t : list Event) : nat :=
  length (filter (λ e, isInitStart e = true) t).

(** The text [buildLayerCss] builds for a layer in a state. *)
Definition layerText (name : LayerName) (s : State) : string :=
  banner name
  +:+ buildSheet (default true (config_prefixer (options s)))
        (sortUtilities (options s)) (layerChildren name s).

(** A cached text is the one [buildLayerCss] would build now. *)
Definition coherent (s : State) : Prop :=
  ∀ name css,
    cssCache (layer_get (layers s) name) = Some css →
    css = layerText name s.

(** *** [ensureInit] in the words of the specification *)

(** The initialization in flight: the stored promise, while pending. *)
Definition inFlight (s : State) : option nat :=
  pid ← _promise_init s;
  match promises s !! pid with
  | Some Pending => Some pid
  | _ => None
  end.

(** "Returns the ready instance immediately if present, otherwise returns
    the single in-flight initialization if one exists, otherwise starts
    one." *)
Definition ensureInit_spec (s : State) : Awaited * State :=
  match processor s with
  | Some p => (Ready p, s)
  | None =>
      match inFlight s with
      | Some pid => (Follows pid, s)
      | None =>
          let '(pid, s) := _init_call s in
          (Follows pid, with_promises (Some pid) (promises s) s)
      end
  end.

End CreateUtils.

(** ** A small configuration to run the operations on *)

Module Demo.

Definition htmlTags : list string := ["html"; "body"; "div"; "a"; "p"].
Definition preflightTags : list string := ["html"; "body"; "div"].
Definition kebabCase (x : string) : string := x.
Definition trim (x : string) : string := x.

(** A style sheet builder that concatenates the rules. *)
Definition buildSheet (prefixer sort : bool) (children : list Style)
    : string :=
  String.concat "" (map rule children).

Definition pf : PreflightOptions :=
  mkPreflightOptions false true true true [] [] ∅.

Definition opts : ResolvedOptions :=
  mkOptions true false [] [] pf None false false false.

(** A compiler that knows the single utility [p-4], alone or next to the
    unknown [zzz]. *)
Definition proc : Processor :=
  mkProcessor
    (λ input,
       if bool_decide (input = "p-4") || bool_decide (input = "p-4 zzz")
       then mkInterpretResult ["p-4"]
              [mkStyle "utilities" ".p-4{padding:1rem}"]
       else mkInterpretResult [] [])
    (λ _ _ _ _, [mkStyle "base" "a{color:inherit}"])
    [].

Definition newProcessor (o : ResolvedOptions) : Processor := proc.

(** After the first initialization. *)
Definition ready : State :=
  _init_resume htmlTags preflightTags newProcessor 0 (inr opts)
    (ensureInit (initial opts)).2.

(** A tag is requested, then the configuration is loaded again. *)
Definition reloaded : State :=
  runTagCalls htmlTags preflightTags kebabCase
    [TagClear false; TagAdd ["a"]; TagClear false] (initial opts).

(** The first initialization failed. *)
Definition failed : State :=
  _init_resume htmlTags preflightTags newProcessor 0 (inl "no config")
    (ensureInit (initial opts)).2.

(** [p-4] was found in a source file. *)
Definition found : State := (addClasses ["p-4"] ready).2.

(** ... and compiled. *)
Definition compiled : State :=
  default found (buildPendingStyles 5 6 found).

(** A class the compiler does not know was found. *)
Definition unknown : State := (addClasses ["zzz"] ready).2.

(** A style file with a base block was transformed after the compilation. *)
Definition edited : State :=
  updateLayers 7 [mkStyle "base" "a{}"] "a.css" true compiled.

(** A run of the module: initialization, a class found, the utilities
    requested, a style file with a utilities block transformed. *)
Definition calls : list Call :=
  [CallEnsureInit; InitSettles 0 (inr opts); CallAddClasses ["p-4"];
   CallGenerateCSS 5 6 (Some Utilities);
   CallUpdateLayers 7 [mkStyle "utilities" ".btn{}"] "a.css" true].

Definition reached : State :=
  default (initial opts)
    (runCalls htmlTags preflightTags kebabCase buildSheet newProcessor trim
       calls (initial opts)).

End Demo.

(** ** The rest of [createUtils] *)

(** *** JavaScript strings

    A string is the sequence of its code units. *)

(** [s.indexOf(c)] for a single character [c]; [None] is [-1]. *)
Fixpoint indexOf (c : Ascii.ascii) (s : string) : option nat :=
  match s with
  | "" => None
  | String a s' => if decide (a = c) then Some 0 else S <$> indexOf c s'
  end.

(** [s.slice(0, end)] where [end] is a result of [indexOf]: a negative end
    counts from the end of the string, so [-1] drops the last character. *)
Definition sliceTo (s : string) (e : option nat) : string :=
  match e with
  | Some n => String.substring 0 n s
  | None => String.substring 0 (String.length s - 1) s
  end.

(** [s.startsWith(p)] *)
Definition startsWith (s p : string) : bool := String.prefix p s.

(** The [i] flag on the letters of the pattern: [A] to [Z] are read as
    [a] to [z], every other code unit as itself. *)
Definition lowerChar (a : Ascii.ascii) : Ascii.ascii :=
  let n := Ascii.nat_of_ascii a in
  if bool_decide (65 ≤ n)%nat && bool_decide (n ≤ 90)%nat
  then Ascii.ascii_of_nat (n + 32)
  else a.

Fixpoint lowerString (s : string) : string :=
  match s with
  | "" => ""
  | String a s' => String (lowerChar a) (lowerString s')
  end.

(** What is left of [s] after the lower-case word [w], read without regard
    to case, when [s] starts with it. *)
Fixpoint afterWord (w s : string) : option string :=
  match w, s with
  | "", _ => Some s
  | String a w', String b s' =>
      if decide (lowerChar b = a) then afterWord w' s' else None
  | String _ _, "" => None
  end.

(** The alternatives of the pattern of [isCssTransformTarget], in order. *)
Definition cssExtensions : list string :=
  ["postcss"; "scss"; "sass"; "css"; "stylus"; "less"].

(** [(?:$|\?)] *)
Definition endOrQuery (s : string) : bool :=
  match s with
  | "" => true
  | String c _ => bool_decide (c = "?"%char)
  end.

(** [(?:postcss|scss|sass|css|stylus|less)(?:$|\?)] at the start of [s]. *)
Definition extensionHere (s : string) : bool :=
  existsb (λ ext, match afterWord ext s with
                  | Some rest => endOrQuery rest
                  | None => false
                  end) cssExtensions.

(** [s.match(/\.(?:postcss|scss|sass|css|stylus|less)(?:$|\?)/i)] has a
    match. *)
Fixpoint cssPattern (s : string) : bool :=
  match s with
  | "" => false
  | String c s' =>
      (bool_decide (c = "."%char) && extensionHere s') || cssPattern s'
  end.

(** *** Options and nodes the registry and the layer store do not read *)

(** The fields of the resolved options that [ResolvedOptions] leaves out;
    the operations that read them take them as an argument. *)
Record HostOptions := mkHostOptions {
  opt_transformCSS : bool;
  opt_transformGroups : bool;
  opt_enableScan : bool;
  scan_include : list string;
  scan_exclude : list string;
  scan_transformers : list (string → string → option string)
}.

(** A child of a parsed style sheet: the node with its [meta.group]. *)
Record CssNode := mkCssNode { node : Style; meta_group : string }.

(** The test given to [partition] in [transformCSS]. *)
Definition isLayerBlock (i : CssNode) : bool :=
  bool_decide (meta_group i = "layer-block")
  && bool_decide (meta_type (node i) ∈ ["base"; "utilities"; "components"]).

(** The getter [hasPending]. *)
Definition hasPending (s : State) : bool :=
  negb (bool_decide (JsSet.size (tagsPending s) = 0))
  || negb (bool_decide (JsSet.size (classesPending s) = 0)).

(** *** The ways [_init] ends *)


Section InitOutcomes.

Variable htmlTags : list string.
Variable preflightTags : list string.
Variable newProcessor : ResolvedOptions → Processor.


End InitOutcomes.

Section Host.

(** [kebabCase], [slash], [transformGroups] and [partition] of [./utils];
    [micromatch.isMatch] and [micromatch.contains] (the latter with its
    [dot] option set); [applyExtractors] of [./extractors/helper] with the
    configured extractors; the windicss [CSSParser] ([parse] of the text
    with the processor, read as the children of the sheet) and the
    [build()] of a sheet with given children.  None is among the sources. *)
Variable kebabCase : string → string.
Variable slash : string → string.
Variable transformGroups : string → string.
Variable partition :
  (CssNode → bool) → list CssNode → list CssNode * list CssNode.
Variable isMatch : string → list string → bool.
Variable contains : string → list string → bool.
Variable applyExtractors :
  string → option string → option (list string) * option (list string).
Variable parseCss : string → option Processor → list CssNode.
Variable buildCss : list CssNode → string.

Variable x : HostOptions.

(** *** Scan targets *)

Definition isExcluded (id : string) : bool :=
  contains (slash id) (scan_exclude x).

Definition isIncluded (id : string) : bool :=
  isMatch (slash id) (scan_include x).

Definition isDetectTarget (s : State) (id : string) : bool :=
  if bool_decide (id ∈ files s)
     || bool_decide (sliceTo id (indexOf "?"%char id) ∈ files s)
  then true
  else
    let id := slash id in
    isIncluded id && negb (isExcluded id).

Definition isScanTarget (s : State) (id : string) : bool :=
  if opt_enableScan x
  then existsb (λ file, startsWith id file) (files s)
  else isDetectTarget s id.

Definition isCssTransformTarget (id : string) : bool :=
  if cssPattern id && negb (isExcluded id) then true else false.

(** *** Extraction *)

(** The loop over [options.scanOptions.transformers]. *)
Definition applyTransformers (ts : list (string → string → option string))
    (code id : string) : string :=
  foldl (λ code trans,
           match trans code id with
           | Some result => result
           | None => code
           end) code ts.

(** [extractFile] up to its [await]: the text given to the extractors.  An
    absent and an empty [id] are both falsy. *)
Definition extractFile_begin (code : string) (id : option string)
    (applyGroupTransform : bool) : string :=
  let code :=
    if applyGroupTransform
    then if opt_transformGroups x then transformGroups code else code
    else code in
  match id with
  | Some i =>
      if bool_decide (i = "") then code
      else applyTransformers (scan_transformers x) code i
  | None => code
  end.

(** [extractFile] from its [await] on, run when the extractors have
    answered with [classes] and [tags], each possibly absent. *)
Definition extractFile_resume (classes tags : option (list string))
    (s : State) : bool * State :=
  let changed := false in
  let '(c, s) := addClasses (default [] classes) s in
  let changed := c || changed in
  if enablePreflight (options s)
     || negb (includeAll (preflightOptions (options s)))
  then
    let '(c, s) := addTags kebabCase (default [] tags) s in
    (c || changed, s)
  else (changed, s).

(** [extractFile] when nothing runs between its two parts. *)
Definition extractFile (code : string) (id : option string)
    (applyGroupTransform : bool) (s : State) : bool * State :=
  let '(classes, tags) :=
    applyExtractors (extractFile_begin code id applyGroupTransform) id in
  extractFile_resume classes tags s.

(** *** Style files *)

(** [transformCSS]: the text handed back, the state, and whether
    [onLayerUpdated] was called (when one is given).  [now] is the clock
    reading of [updateLayers]. *)
Definition transformCSS (now : Z) (css id : string) (s : State)
    : string * State * bool :=
  if negb (opt_transformCSS x) then (css, s, false)
  else
    let children := parseCss css (processor s) in
    let '(layerBlocks, blocks) := partition isLayerBlock children in
    if bool_decide (length layerBlocks = 0)
    then (buildCss children, s, false)
    else
      let s := updateLayers now (map node layerBlocks) id true s in
      (buildCss blocks, s, true).

End Host.

(** *** Vocabulary of the further properties *)

(** The completions kept are those of the current processor. *)
Definition completionsCurrent (s : State) : Prop :=
  ∀ c, completions s = Some c →
       ∃ p, processor s = Some p ∧ c = generateCompletions p.

(** Nothing for [buildPendingStyles] to compile. *)
Definition nothingToCompile (s : State) : Prop :=
  classesPending s = []
  ∧ (enablePreflight (options s) = false
     ∨ (includeAll (preflightOptions (options s)) = false
        ∧ tagsPending s = [])).

(** The markup given to [preflight] for the pending tags. *)
Definition tagMarkup (tags : list string) : string :=
  String.concat " " (map (λ i, "<" +:+ i +:+ "/>") tags).

(** The events of the optional hooks around a state. *)
Definition beforeGenerate (s : State) : State :=
  if has_onBeforeGenerate (options s)
  then emit (EvOnBeforeGenerate (classesPending s) (tagsPending s)) s
  else s.

Definition afterGenerate (s : State) : State :=
  if has_onGenerated (options s)
  then emit (EvOnGenerated (classesGenerated s) (tagsGenerated s)) s
  else s.

(** A regular-expression-free reading of the pattern: a dot, one of the
    extensions in any letter case, then the end or a question mark. *)
Definition hasCssExtension (id : string) : Prop :=
  ∃ before ext rest,
    id = before +:+ "." +:+ ext +:+ rest
    ∧ lowerString ext ∈ cssExtensions
    ∧ (rest = "" ∨ ∃ query, rest = "?" +:+ query).

(** ** A second configuration, for the rest of the module *)

Module Sample.

(** Preflight for every tag. *)
Definition pfAll : PreflightOptions :=
  mkPreflightOptions true true true true [] [] ∅.

(** Preflight on, for every tag. *)
Definition optsAll : ResolvedOptions :=
  mkOptions true false [] [] pfAll None false false false.

(** Preflight off. *)
Definition optsOff : ResolvedOptions :=
  mkOptions false false [] [] pfAll None false false false.

Definition readyAll : State :=
  _init_resume Demo.htmlTags Demo.preflightTags Demo.newProcessor 0
    (inr optsAll) (ensureInit (initial optsAll)).2.

Definition readyOff : State :=
  _init_resume Demo.htmlTags Demo.preflightTags Demo.newProcessor 0
    (inr optsOff) (ensureInit (initial optsOff)).2.

(** The scan has found one file. *)
Definition scanned : State :=
  with_init Demo.opts (Some Demo.proc) ["/src/App.vue"] Demo.ready.

(** One transformer that leaves the text alone and one that marks it. *)
Definition host : HostOptions :=
  mkHostOptions true true true ["src/**/*.vue"] ["node_modules"]
    [λ code id, None; λ code id, Some (code +:+ "/*seen*/")].

Definition slash (id : string) : string := id.
Definition transformGroups (code : string) : string := code.
Definition isMatch (id : string) (patterns : list string) : bool := false.
Definition contains (id : string) (patterns : list string) : bool := false.

(** A parser that finds a component block and a plain rule in any text. *)
Definition parseCss (css : string) (p : option Processor) : list CssNode :=
  [mkCssNode (mkStyle "components" ".btn{}") "layer-block";
   mkCssNode (mkStyle "utilities" "a{}") "rule"].

Definition buildCss (children : list CssNode) : string :=
  String.concat "" (map (λ i, rule (node i)) children).

Definition partition (f : CssNode → bool) (l : list CssNode)
    : list CssNode * list CssNode :=
  List.partition f l.

(** The whole style sheet, asked for in the state the demo run reached. *)
Definition page : string * State :=
  default ("", Demo.reached)
    (generateCSS Demo.buildSheet Demo.trim 8 9 None Demo.reached).

End Sample.

(** * Properties *)

(** ** Sets and maps *)

Lemma has_true (s : list string) (x : string) : JsSet.has s x = true ↔ x ∈ s.
Proof. unfold JsSet.has. apply bool_decide_eq_true. Qed.

Lemma has_false (s : list string) (x : string) :
  JsSet.has s x = false ↔ x ∉ s.
Proof. unfold JsSet.has. apply bool_decide_eq_false. Qed.

Lemma elem_of_add (x y : string) (s : list string) :
  y ∈ JsSet.add x s ↔ y = x ∨ y ∈ s.
Proof.
  unfold JsSet.add. destruct (JsSet.has s x) eqn:E.
  - apply has_true in E. split; [auto | intros [-> | ?]; auto].
  - rewrite elem_of_app, list_elem_of_singleton. tauto.
Qed.

Lemma elem_of_del (x y : string) (s : list string) :
  y ∈ JsSet.del x s ↔ y ∈ s ∧ y ≠ x.
Proof. unfold JsSet.del. rewrite list_elem_of_filter. tauto. Qed.

Lemma elem_of_include (s v : list string) (y : string) :
  y ∈ include s v ↔ y ∈ s ∨ y ∈ v.
Proof.
  unfold include. revert s.
  induction v as [| i v IH]; intros s; simpl.
  - rewrite elem_of_nil. tauto.
  - rewrite IH, elem_of_add, elem_of_cons. tauto.
Qed.

Lemma elem_of_exclude (s v : list string) (y : string) :
  y ∈ exclude s v ↔ y ∈ s ∧ y ∉ v.
Proof.
  unfold exclude. revert s.
  induction v as [| i v IH]; intros s; simpl.
  - rewrite elem_of_nil. tauto.
  - rewrite IH, elem_of_del, not_elem_of_cons. tauto.
Qed.

Lemma NoDup_add (x : string) (s : list string) :
  NoDup s → NoDup (JsSet.add x s).
Proof.
  intros H. unfold JsSet.add. destruct (JsSet.has s x) eqn:E; [done |].
  apply has_false in E. apply NoDup_app. split; [done |].
  split; [| apply NoDup_singleton].
  intros y Hy Hy'. apply list_elem_of_singleton in Hy'. by subst.
Qed.

Lemma NoDup_include (s v : list string) : NoDup s → NoDup (include s v).
Proof.
  unfold include. revert s.
  induction v as [| i v IH]; intros s H; simpl; [done |].
  by apply IH, NoDup_add.
Qed.

Lemma get_set_eq {V} (k : string) (v : V) (m : list (string * V)) :
  JsMap.get (JsMap.set k v m) k = Some v.
Proof.
  induction m as [| [k' v'] m IH]; simpl.
  - by rewrite decide_True.
  - destruct (decide (k' = k)) as [-> | Hne]; simpl.
    + by rewrite decide_True.
    + by rewrite decide_False.
Qed.

Lemma get_set_ne {V} (k k0 : string) (v : V) (m : list (string * V)) :
  k ≠ k0 → JsMap.get (JsMap.set k v m) k0 = JsMap.get m k0.
Proof.
  intros Hne. induction m as [| [k' v'] m IH]; simpl.
  - by rewrite decide_False.
  - destruct (decide (k' = k)) as [-> | Hne']; simpl.
    + by rewrite !decide_False.
    + destruct (decide (k' = k0)); [done | apply IH].
Qed.

(** ** Layers *)

Lemma layer_of_string_name (n : LayerName) :
  layer_of_string (layer_string n) = Some n.
Proof. by destruct n. Qed.

Lemma layer_of_string_inv (x : string) (n : LayerName) :
  layer_of_string x = Some n → x = layer_string n.
Proof.
  unfold layer_of_string. repeat case_decide; intros; simplify_eq; done.
Qed.

Lemma layer_get_set (n n0 : LayerName) (m : LayerMeta) (ls : Layers) :
  layer_get (layer_set n m ls) n0 = if decide (n = n0) then m else layer_get ls n0.
Proof. by destruct n, n0. Qed.

Lemma elem_of_addTypes (styles : list Style) (acc : list string) (x : string) :
  x ∈ addTypes styles acc ↔ x ∈ acc ∨ x ∈ map meta_type styles.
Proof.
  unfold addTypes. revert acc.
  induction styles as [| i styles IH]; intros acc; simpl.
  - rewrite elem_of_nil. tauto.
  - rewrite IH, elem_of_add, elem_of_cons. tauto.
Qed.

Lemma layer_get_invalidate (now : Z) (changed : list string) (ls : Layers)
    (n : LayerName) :
  layer_get (invalidate now changed ls) n
  = if JsSet.has changed (layer_string n)
    then mkLayerMeta None (Some now)
    else layer_get ls n.
Proof.
  unfold invalidate. revert ls.
  induction changed as [| x changed IH]; intros ls; simpl; [done |].
  rewrite IH. destruct (JsSet.has changed (layer_string n)) eqn:E.
  - apply has_true in E.
    replace (JsSet.has (x :: changed) (layer_string n)) with true; [done |].
    symmetry. apply has_true. by right.
  - apply has_false in E.
    destruct (layer_of_string x) as [n' |] eqn:Hx.
    + apply layer_of_string_inv in Hx. subst x.
      rewrite layer_get_set. destruct (decide (n' = n)) as [Heq | Hne].
      * subst n'.
        replace (JsSet.has (layer_string n :: changed) (layer_string n))
          with true; [done |].
        symmetry. apply has_true. by left.
      * replace (JsSet.has (layer_string n' :: changed) (layer_string n))
          with false; [done |].
        symmetry. apply has_false. apply not_elem_of_cons. split; [| done].
        intros Heq. apply Hne. by destruct n, n'.
    + replace (JsSet.has (x :: changed) (layer_string n)) with false; [done |].
      symmetry. apply has_false. apply not_elem_of_cons. split; [| done].
      intros <-. by rewrite layer_of_string_name in Hx.
Qed.

(** ** Class registry *)

Lemma with_classes_id (s : State) :
  with_classes (classesGenerated s) (classesPending s) s = s.
Proof. by destruct s. Qed.

Lemma insertable_true (s : State) (i : string) :
  insertable s i = true
  ↔ i ≠ "" ∧ (i ∉ classesGenerated s) ∧ (i ∉ classesPending s)
    ∧ (i ∉ blocklist (options s)).
Proof.
  unfold insertable.
  rewrite negb_true_iff, !orb_false_iff, bool_decide_eq_false, !has_false.
  tauto.
Qed.

Lemma addClasses_token_eq (c : bool) (s : State) (i : string) :
  addClasses_token (c, s) i
  = if insertable s i
    then (true, with_classes (classesGenerated s)
                  (JsSet.add i (classesPending s)) s)
    else (c, s).
Proof.
  unfold addClasses_token, insertable.
  by destruct (bool_decide (i = "") || JsSet.has (classesGenerated s) i
               || JsSet.has (classesPending s) i
               || JsSet.has (blocklist (options s)) i).
Qed.

(** The loop of [addClasses], from any value of [changed]. *)
Lemma addClasses_loop (classes : list string) (c : bool) (s : State) :
  let r := foldl addClasses_token (c, s) classes in
  r.2 = with_classes (classesGenerated s) (classesPending r.2) s
  ∧ (∀ x, x ∈ classesPending r.2
          ↔ x ∈ classesPending s ∨ (x ∈ classes ∧ insertable s x = true))
  ∧ (r.1 = true ↔ c = true ∨ ∃ x, x ∈ classes ∧ insertable s x = true).
Proof.
  revert c s. induction classes as [| i classes IH]; intros c s; cbn [foldl].
  - simpl. split; [by rewrite with_classes_id |]. split.
    + intros x. rewrite elem_of_nil. tauto.
    + split; [auto |]. intros [? | (x & Hx & _)]; [done |].
      by apply elem_of_nil in Hx.
  - rewrite addClasses_token_eq. destruct (insertable s i) eqn:Hi.
    + set (s1 := with_classes (classesGenerated s)
                   (JsSet.add i (classesPending s)) s).
      destruct (IH true s1) as (Hf & Hp & Hc). split; [| split].
      * rewrite Hf at 1. by destruct s.
      * intros x. rewrite Hp. simpl. rewrite elem_of_add, elem_of_cons.
        rewrite (insertable_true s1), (insertable_true s). simpl.
        rewrite elem_of_add. apply insertable_true in Hi.
        destruct (decide (x = i)) as [-> | Hne]; [tauto |]. tauto.
      * rewrite Hc. split; [| auto]. intros _. right. exists i.
        split; [by left | done].
    + destruct (IH c s) as (Hf & Hp & Hc). split; [done |]. split.
      * intros x. rewrite Hp, elem_of_cons. split; [tauto |].
        intros [? | [[-> | ?] Hx]]; [tauto | congruence | tauto].
      * rewrite Hc. split.
        -- intros [? | (x & Hx & Hins)]; [auto |]. right. exists x.
           split; [by right | done].
        -- intros [? | (x & Hx & Hins)]; [auto |]. right. exists x.
           apply elem_of_cons in Hx as [-> | ?]; [congruence | done].
Qed.

(** C3: [addClasses] inserts into [classesPending] exactly the tokens of
    its argument that are non-empty, not generated, not pending and not
    blocklisted, changes nothing else, and returns [true] iff there is such a
    token; for such a token [t], [addClasses([t])] called twice in a row
    returns [true] and then [false], and the second call leaves the state as
    it was. *)
Theorem C3_addClasses_inserts (classes : list string) (s : State) :
  let r := addClasses classes s in
  (∀ x, x ∈ classesPending r.2
        ↔ x ∈ classesPending s ∨ (x ∈ classes ∧ insertable s x = true))
  ∧ r.2 = with_classes (classesGenerated s) (classesPending r.2) s
  ∧ (r.1 = true ↔ ∃ x, x ∈ classes ∧ insertable s x = true)
  ∧ (∀ t, insertable s t = true →
          let r1 := addClasses [t] s in
          let r2 := addClasses [t] r1.2 in
          r1.1 = true ∧ t ∈ classesPending r1.2
          ∧ r2.1 = false ∧ r2.2 = r1.2).
Proof.
  unfold addClasses.
  destruct (addClasses_loop classes false s) as (Hf & Hp & Hc).
  split; [done |]. split; [done |]. split.
  - rewrite Hc. split; [| auto]. by intros [? | ?].
  - intros t Ht. cbn [foldl]. rewrite addClasses_token_eq, Ht. cbn [snd].
    rewrite addClasses_token_eq.
    assert (insertable
              (with_classes (classesGenerated s)
                 (JsSet.add t (classesPending s)) s) t = false) as ->.
    { apply not_true_iff_false. rewrite insertable_true. simpl.
      rewrite elem_of_add. tauto. }
    simpl. rewrite elem_of_add. auto.
Qed.

Lemma addClasses_disjoint (classes : list string) (s : State) :
  disjointSets (classesGenerated s) (classesPending s) →
  disjointSets (classesGenerated (addClasses classes s).2)
    (classesPending (addClasses classes s).2).
Proof.
  intros Hd. unfold addClasses.
  destruct (addClasses_loop classes false s) as (Hf & Hp & _).
  rewrite Hf at 1. simpl. intros x Hg Hx. apply Hp in Hx as [Hx | [_ Hx]].
  - by apply (Hd x).
  - apply insertable_true in Hx. tauto.
Qed.

Section Registry.

Variable htmlTags : list string.
Variable preflightTags : list string.
Variable kebabCase : string → string.

(** *** What [clearCache] leaves in each field *)

Lemma clearCache_classes (clearAll : bool) (s : State) :
  let s' := clearCache htmlTags preflightTags clearAll s in
  classesGenerated s' = []
  ∧ classesPending s'
    = include
        (if clearAll then []
         else include (classesPending s) (classesGenerated s))
        (safelist (options s)).
Proof. by destruct clearAll. Qed.

Lemma clearCache_tags (clearAll : bool) (s : State) :
  let s' := clearCache htmlTags preflightTags clearAll s in
  let pf := preflightOptions (options s) in
  tagsGenerated s' = []
  ∧ tagsPending s'
    = include
        (if clearAll then []
         else include (include (tagsPending s) (tagsGenerated s))
                preflightTags)
        (pf_safelist pf)
  ∧ tagsAvailable s'
    = exclude
        (exclude
           (if clearAll then [] else include (tagsAvailable s) htmlTags)
           preflightTags)
        (pf_safelist pf).
Proof. by destruct clearAll. Qed.

Lemma clearCache_rest (clearAll : bool) (s : State) :
  let s' := clearCache htmlTags preflightTags clearAll s in
  layers s' = mkLayers emptyMeta emptyMeta emptyMeta
  ∧ completions s' = None
  ∧ attrsGenerated s' = []
  ∧ layerStylesMap s' = layerStylesMap s
  ∧ options s' = options s
  ∧ processor s' = processor s
  ∧ files s' = files s
  ∧ _promise_init s' = _promise_init s
  ∧ promises s' = promises s
  ∧ trace s' = trace s.
Proof. by destruct clearAll. Qed.

(** C4: [clearCache(false)] puts every generated class and tag into the
    pending set of its kind, empties both generated sets, resets the cache
    and the timestamp of every layer and the completions cache, adds
    [htmlTags] to [tagsAvailable] and removes from it [preflightTags] and
    the preflight safelist, and adds the safelists to the pending sets
    whatever they hold. *)
Theorem C4_clearCache_requeues (s : State) :
  let s' := clearCache htmlTags preflightTags false s in
  let pf := preflightOptions (options s) in
  (∀ x, x ∈ classesPending s'
        ↔ x ∈ classesPending s ∨ x ∈ classesGenerated s
          ∨ x ∈ safelist (options s))
  ∧ (∀ x, x ∈ tagsPending s'
          ↔ x ∈ tagsPending s ∨ x ∈ tagsGenerated s ∨ x ∈ preflightTags
            ∨ x ∈ pf_safelist pf)
  ∧ classesGenerated s' = [] ∧ tagsGenerated s' = []
  ∧ (∀ name, layer_get (layers s') name = mkLayerMeta None None)
  ∧ completions s' = None
  ∧ (∀ x, x ∈ tagsAvailable s'
          ↔ (x ∈ tagsAvailable s ∨ x ∈ htmlTags)
            ∧ (x ∉ preflightTags) ∧ (x ∉ pf_safelist pf))
  ∧ ((∀ x, x ∈ tagsAvailable s → x ∈ htmlTags) →
     ∀ x, x ∈ tagsAvailable s'
          ↔ x ∈ htmlTags ∧ (x ∉ preflightTags) ∧ (x ∉ pf_safelist pf))
  ∧ (∀ x, x ∈ safelist (options s) → x ∈ classesPending s')
  ∧ (∀ x, x ∈ pf_safelist pf → x ∈ tagsPending s')
  ∧ layerStylesMap s' = layerStylesMap s.
Proof.
  clear kebabCase. intros s' pf.
  destruct (clearCache_classes false s) as (Hcg & Hcp).
  destruct (clearCache_tags false s) as (Htg & Htp & Hta).
  destruct (clearCache_rest false s) as (Hl & Hc & _ & Hm & _).
  fold s' in Hcg, Hcp, Htg, Htp, Hta, Hl, Hc, Hm. fold pf in Htp, Hta.
  assert (∀ x, x ∈ tagsAvailable s'
               ↔ (x ∈ tagsAvailable s ∨ x ∈ htmlTags)
                 ∧ (x ∉ preflightTags) ∧ (x ∉ pf_safelist pf)) as Hav.
  { intros x. rewrite Hta, !elem_of_exclude, elem_of_include. tauto. }
  split_and!; try done.
  - intros x. rewrite Hcp, !elem_of_include. tauto.
  - intros x. rewrite Htp, !elem_of_include. tauto.
  - intros name. rewrite Hl. by destruct name.
  - intros H x. rewrite Hav. specialize (H x). tauto.
  - intros x Hx. rewrite Hcp, !elem_of_include. tauto.
  - intros x Hx. rewrite Htp, !elem_of_include. tauto.
Qed.

(** *** The class sets stay disjoint *)

Lemma runClassCall_disjoint (c : ClassCall) (s : State) :
  disjointSets (classesGenerated s) (classesPending s) →
  let s' := runClassCall htmlTags preflightTags s c in
  disjointSets (classesGenerated s') (classesPending s').
Proof.
  intros Hd. destruct c as [classes | clearAll]; cbn [runClassCall].
  - by apply addClasses_disjoint.
  - destruct (clearCache_classes clearAll s) as (-> & _).
    intros x Hx. by apply elem_of_nil in Hx.
Qed.

Lemma runClassCalls_disjoint (cs : list ClassCall) (s : State) :
  disjointSets (classesGenerated s) (classesPending s) →
  let s' := runClassCalls htmlTags preflightTags cs s in
  disjointSets (classesGenerated s') (classesPending s').
Proof.
  revert s. induction cs as [| c cs IH]; intros s Hd; [done |].
  by apply IH, runClassCall_disjoint.
Qed.

(** C2: after every sequence of [addClasses] and [clearCache] calls, in
    either mode, from the initial state, no token is both generated and
    pending; the same holds from any state in which the two sets are
    disjoint, such as one left by a compilation. *)
Theorem C2_classes_disjoint (o : ResolvedOptions) (cs : list ClassCall) :
  (let s := runClassCalls htmlTags preflightTags cs (initial o) in
   disjointSets (classesGenerated s) (classesPending s))
  ∧ (∀ s0,
       disjointSets (classesGenerated s0) (classesPending s0) →
       let s := runClassCalls htmlTags preflightTags cs s0 in
       disjointSets (classesGenerated s) (classesPending s)).
Proof.
  split.
  - apply runClassCalls_disjoint. intros x Hx. by apply elem_of_nil in Hx.
  - intros s0 Hd. by apply runClassCalls_disjoint.
Qed.

(** *** Tag registry *)

Lemma addTags_tag_cases (c : bool) (s : State) (tag : string) :
  addTags_tag kebabCase (c, s) tag = (c, s)
  ∨ ∃ t, t ∈ tagsAvailable s ∧ (t ∉ tagsPending s)
         ∧ addTags_tag kebabCase (c, s) tag = (true, moveTag t s).
Proof.
  unfold addTags_tag. destruct (resolveTag kebabCase s tag) as [t |]; [| auto].
  destruct (JsSet.has (pf_blocklist _) t); [auto |].
  destruct (JsSet.has (tagsAvailable s) t) eqn:Ha; [| auto].
  destruct (JsSet.has (tagsPending s) t) eqn:Hp; [auto |].
  right. exists t. apply has_true in Ha. apply has_false in Hp. auto.
Qed.

(** A property kept by every move is kept by [addTags]. *)
Lemma addTags_keeps (P : State → Prop) :
  (∀ s t, P s → t ∈ tagsAvailable s → t ∉ tagsPending s → P (moveTag t s)) →
  ∀ tags c s, P s → P (foldl (addTags_tag kebabCase) (c, s) tags).2.
Proof.
  intros Hmove tags. induction tags as [| tag tags IH]; intros c s Hs;
    cbn [foldl]; [done |].
  destruct (addTags_tag_cases c s tag) as [-> | (t & Ha & Hp & ->)].
  - by apply IH.
  - apply IH. by apply Hmove.
Qed.

Lemma elem_of_tagUniverse (o : ResolvedOptions) (x : string) :
  x ∈ tagUniverse htmlTags preflightTags o
  ↔ x ∈ htmlTags ∨ x ∈ preflightTags
    ∨ x ∈ pf_safelist (preflightOptions o).
Proof. unfold tagUniverse. by rewrite !elem_of_app. Qed.

Lemma moveTag_bounded (o : ResolvedOptions) (s : State) (t : string) :
  tagsBounded htmlTags preflightTags o s → t ∈ tagsAvailable s → t ∉ tagsPending s →
  tagsBounded htmlTags preflightTags o (moveTag t s).
Proof.
  intros (Ho & Hg & Ha & Hp) Ht _. split_and!; simpl; try done.
  - intros x Hx. apply elem_of_del in Hx as [Hx _]. by apply Ha.
  - intros x Hx. apply elem_of_add in Hx as [-> | Hx]; [| by apply Hp].
    apply elem_of_tagUniverse. left. by apply (Ha t).
Qed.

Lemma moveTag_disjoint (s : State) (t : string) :
  disjointSets (tagsAvailable s) (tagsPending s) →
  t ∈ tagsAvailable s → t ∉ tagsPending s →
  disjointSets (tagsAvailable (moveTag t s)) (tagsPending (moveTag t s)).
Proof.
  intros Hd _ _ x. simpl. rewrite elem_of_del, elem_of_add.
  intros [Hx Hne] [? | Hx']; [done |]. by apply (Hd x).
Qed.

Lemma moveTag_cover (o : ResolvedOptions) (s : State) (t : string) :
  tagsCover htmlTags preflightTags o s → t ∈ tagsAvailable s → t ∉ tagsPending s →
  tagsCover htmlTags preflightTags o (moveTag t s).
Proof.
  intros Hc Ht _ x. rewrite <- (Hc x). simpl.
  rewrite elem_of_del, elem_of_add.
  destruct (decide (x = t)) as [-> | Hne]; tauto.
Qed.

Lemma clearCache_bounded (o : ResolvedOptions) (clearAll : bool) (s : State) :
  tagsBounded htmlTags preflightTags o s →
  tagsBounded htmlTags preflightTags o (clearCache htmlTags preflightTags clearAll s).
Proof.
  intros (Ho & Hg & Ha & Hp).
  destruct (clearCache_tags clearAll s) as (Htg & Htp & Hta).
  destruct (clearCache_rest clearAll s) as (_ & _ & _ & _ & Hopt & _).
  rewrite Ho in Htp, Hta. split_and!; [congruence | done | |].
  - intros x. rewrite Hta, !elem_of_exclude. unfold availableTag.
    destruct clearAll.
    + rewrite elem_of_nil. tauto.
    + rewrite elem_of_include. intros [[[Hx | Hx] ?] ?]; [| tauto].
      destruct (Ha x Hx) as (? & _). tauto.
  - intros x. rewrite Htp, elem_of_include, elem_of_tagUniverse.
    destruct clearAll.
    + rewrite elem_of_nil. tauto.
    + rewrite !elem_of_include, Hg, elem_of_nil.
      intros [[[Hx | []] | ?] | ?]; [| tauto | tauto].
      by apply elem_of_tagUniverse, Hp.
Qed.

Lemma clearCache_unrequested (o : ResolvedOptions) (clearAll : bool)
    (s : State) :
  tagsBounded htmlTags preflightTags o s → tagsUnrequested preflightTags o s →
  tagsUnrequested preflightTags o (clearCache htmlTags preflightTags clearAll s).
Proof.
  intros (Ho & Hg & _) Hu x.
  destruct (clearCache_tags clearAll s) as (_ & -> & _). rewrite Ho.
  rewrite elem_of_include. destruct clearAll.
  - rewrite elem_of_nil. tauto.
  - rewrite !elem_of_include, Hg, elem_of_nil.
    intros [[[Hx | []] | ?] | ?]; [| tauto | tauto]. by apply Hu.
Qed.

Lemma clearCache_cover (o : ResolvedOptions) (s : State) :
  tagsBounded htmlTags preflightTags o s →
  tagsCover htmlTags preflightTags o (clearCache htmlTags preflightTags false s).
Proof.
  intros (Ho & Hg & Ha & Hp) x.
  destruct (clearCache_tags false s) as (_ & -> & ->). rewrite Ho.
  rewrite !elem_of_exclude, !elem_of_include, Hg, elem_of_tagUniverse.
  pose proof (Ha x) as Hax. pose proof (Hp x) as Hpx.
  rewrite elem_of_tagUniverse in Hpx. unfold availableTag in Hax.
  rewrite elem_of_nil.
  destruct (decide (x ∈ preflightTags));
    destruct (decide (x ∈ pf_safelist (preflightOptions o))); tauto.
Qed.

Lemma unrequested_disjoint (o : ResolvedOptions) (s : State) :
  tagsBounded htmlTags preflightTags o s → tagsUnrequested preflightTags o s →
  disjointSets (tagsAvailable s) (tagsPending s).
Proof.
  intros (_ & _ & Ha & _) Hu x Hx Hx'.
  destruct (Ha x Hx) as (_ & ? & ?). destruct (Hu x Hx'); done.
Qed.

Lemma runTagCall_bounded (o : ResolvedOptions) (c : TagCall) (s : State) :
  tagsBounded htmlTags preflightTags o s →
  tagsBounded htmlTags preflightTags o (runTagCall htmlTags preflightTags kebabCase s c).
Proof.
  intros Hs. destruct c as [tags | clearAll]; cbn [runTagCall].
  - apply (addTags_keeps (tagsBounded htmlTags preflightTags o)); [apply moveTag_bounded | done].
  - by apply clearCache_bounded.
Qed.

Lemma runTagCalls_bounded (o : ResolvedOptions) (cs : list TagCall)
    (s : State) :
  tagsBounded htmlTags preflightTags o s →
  tagsBounded htmlTags preflightTags o (runTagCalls htmlTags preflightTags kebabCase cs s).
Proof.
  revert s. induction cs as [| c cs IH]; intros s Hs; [done |].
  by apply IH, runTagCall_bounded.
Qed.

Lemma initial_bounded (o : ResolvedOptions) : tagsBounded htmlTags preflightTags o (initial o).
Proof.
  split_and!; try done; intros x Hx; by apply elem_of_nil in Hx.
Qed.

Lemma clears_unrequested (o : ResolvedOptions) (cs : list TagCall)
    (s : State) :
  Forall isTagClear cs → tagsBounded htmlTags preflightTags o s → tagsUnrequested preflightTags o s →
  tagsUnrequested preflightTags o (runTagCalls htmlTags preflightTags kebabCase cs s).
Proof.
  revert s. induction cs as [| c cs IH]; intros s Hcs Hb Hu; [done |].
  apply Forall_cons in Hcs as [Hc Hcs]. unfold runTagCalls. cbn [foldl].
  apply IH; [exact Hcs | by apply runTagCall_bounded |].
  destruct c as [| clearAll]; [destruct Hc |]. cbn [runTagCall].
  by apply clearCache_unrequested.
Qed.

Lemma adds_keep (P : State → Prop) (cs : list TagCall) (s : State) :
  (∀ s t, P s → t ∈ tagsAvailable s → t ∉ tagsPending s → P (moveTag t s)) →
  Forall isTagAdd cs → P s →
  P (runTagCalls htmlTags preflightTags kebabCase cs s).
Proof.
  intros Hmove. revert s.
  induction cs as [| c cs IH]; intros s Hcs Hs; [done |].
  apply Forall_cons in Hcs as [Hc Hcs]. destruct c as [tags |]; [| done].
  apply IH; [done |]. cbn [runTagCall]. unfold addTags.
  by apply (addTags_keeps P).
Qed.

Lemma runTagCalls_app (cs1 cs2 : list TagCall) (s : State) :
  runTagCalls htmlTags preflightTags kebabCase (cs1 ++ cs2)%list s
  = runTagCalls htmlTags preflightTags kebabCase cs2
      (runTagCalls htmlTags preflightTags kebabCase cs1 s).
Proof. apply foldl_app. Qed.

Lemma runTagCalls_cons (c : TagCall) (cs : list TagCall) (s : State) :
  runTagCalls htmlTags preflightTags kebabCase (c :: cs) s
  = runTagCalls htmlTags preflightTags kebabCase cs
      (runTagCall htmlTags preflightTags kebabCase s c).
Proof. reflexivity. Qed.

(** After [clearCache(true)] nothing is available and the preflight
    safelist alone is pending. *)
Lemma clearCache_full_tags (o : ResolvedOptions) (s : State) :
  options s = o →
  tagsAvailable (clearCache htmlTags preflightTags true s) = []
  ∧ (∀ x, x ∈ tagsPending (clearCache htmlTags preflightTags true s)
          ↔ x ∈ pf_safelist (preflightOptions o)).
Proof.
  intros Ho. destruct (clearCache_tags true s) as (_ & Htp & Hta).
  rewrite Ho in Htp, Hta. split.
  - apply elem_of_nil_inv. intros x.
    rewrite Hta, !elem_of_exclude, elem_of_nil. tauto.
  - intros x. rewrite Htp, elem_of_include, elem_of_nil. tauto.
Qed.

(** [addTags] does nothing while nothing is available. *)
Lemma adds_idle (cs : list TagCall) (s : State) :
  Forall isTagAdd cs → tagsAvailable s = [] →
  tagsAvailable (runTagCalls htmlTags preflightTags kebabCase cs s) = []
  ∧ tagsPending (runTagCalls htmlTags preflightTags kebabCase cs s)
    = tagsPending s.
Proof.
  intros Hcs Ha.
  apply (adds_keep
           (λ s', tagsAvailable s' = [] ∧ tagsPending s' = tagsPending s));
    [| done | done].
  intros s1 t [Hs1 _] Ht _. rewrite Hs1 in Ht. by apply elem_of_nil in Ht.
Qed.

(** From the start, or after a full [clearCache], no tag was requested. *)
Lemma full_clear_unrequested (o : ResolvedOptions) (pre : list TagCall) :
  endsWithFullClear pre →
  tagsUnrequested preflightTags o
    (runTagCalls htmlTags preflightTags kebabCase pre (initial o)).
Proof.
  intros [-> | Hl].
  - intros x Hx. by apply elem_of_nil in Hx.
  - apply last_Some in Hl as (pre' & ->).
    rewrite runTagCalls_app, runTagCalls_cons. cbn [runTagCall].
    set (s0 := runTagCalls htmlTags preflightTags kebabCase pre' (initial o)).
    destruct (clearCache_full_tags o s0) as (_ & Hp).
    { by destruct (runTagCalls_bounded o pre' (initial o)
                     (initial_bounded o)). }
    intros x Hx. right. by apply Hp.
Qed.

(** The union of the sets after a [clearCache(false)] and requests. *)
Lemma cover_after_partial (o : ResolvedOptions) (pre adds : list TagCall) :
  Forall isTagAdd adds →
  tagsCover htmlTags preflightTags o
    (runTagCalls htmlTags preflightTags kebabCase
       (pre ++ TagClear false :: adds)%list (initial o)).
Proof.
  intros Hadds. rewrite runTagCalls_app, runTagCalls_cons.
  cbn [runTagCall].
  apply (adds_keep (tagsCover htmlTags preflightTags o));
    [apply moveTag_cover | done |].
  apply clearCache_cover, runTagCalls_bounded, initial_bounded.
Qed.

(** A quiet [clearCache(false)] keeps the two sets apart. *)
Lemma clearCache_quiet_disjoint (o : ResolvedOptions) (s : State) :
  tagsBounded htmlTags preflightTags o s →
  Forall (λ x, ¬ availableTag htmlTags preflightTags o x) (tagsPending s) →
  disjointSets (tagsAvailable (clearCache htmlTags preflightTags false s))
    (tagsPending (clearCache htmlTags preflightTags false s)).
Proof.
  intros (Ho & Hg & Ha & _) Hq x.
  destruct (clearCache_tags false s) as (_ & -> & ->). rewrite Ho.
  rewrite !elem_of_exclude, !elem_of_include, Hg, elem_of_nil.
  intros [[Hx Hpre] Hsafe] Hx'. rewrite Forall_forall in Hq.
  assert (x ∈ tagsPending s) as Hp by tauto.
  apply (Hq x Hp). split_and!; [| done | done].
  destruct Hx as [Hx | Hx]; [by apply (Ha x) | done].
Qed.

Lemma quiet_disjoint (o : ResolvedOptions) (cs : list TagCall) (s : State) :
  tagsBounded htmlTags preflightTags o s →
  disjointSets (tagsAvailable s) (tagsPending s) →
  quietClears htmlTags preflightTags kebabCase o cs s →
  disjointSets
    (tagsAvailable (runTagCalls htmlTags preflightTags kebabCase cs s))
    (tagsPending (runTagCalls htmlTags preflightTags kebabCase cs s)).
Proof.
  revert s. induction cs as [| c cs IH]; intros s Hb Hd Hq; [done |].
  destruct Hq as [Hc Hq]. rewrite runTagCalls_cons.
  apply IH; [by apply runTagCall_bounded | | exact Hq].
  destruct c as [tags | [|]]; cbn [runTagCall].
  - unfold addTags.
    apply (addTags_keeps
             (λ s, disjointSets (tagsAvailable s) (tagsPending s)));
      [apply moveTag_disjoint | done].
  - destruct (clearCache_full_tags o s) as (-> & _); [by destruct Hb |].
    intros x Hx. by apply elem_of_nil in Hx.
  - by apply (clearCache_quiet_disjoint o).
Qed.

(** A tag in both sets stays in both until the next full [clearCache]. *)
Lemma overlap_kept (o : ResolvedOptions) (x : string) (cs : list TagCall)
    (s : State) :
  Forall notFullClear cs → tagsBounded htmlTags preflightTags o s →
  x ∈ tagsAvailable s → x ∈ tagsPending s →
  x ∈ tagsAvailable (runTagCalls htmlTags preflightTags kebabCase cs s)
  ∧ x ∈ tagsPending (runTagCalls htmlTags preflightTags kebabCase cs s).
Proof.
  revert s. induction cs as [| c cs IH]; intros s Hcs Hb Ha Hp; [done |].
  apply Forall_cons in Hcs as [Hc Hcs]. rewrite runTagCalls_cons.
  assert (x ∈ tagsAvailable (runTagCall htmlTags preflightTags kebabCase s c)
          ∧ x ∈ tagsPending (runTagCall htmlTags preflightTags kebabCase s c))
    as [Ha' Hp'].
  { destruct c as [tags | [|]]; [| destruct Hc |]; cbn [runTagCall].
    - unfold addTags.
      apply (addTags_keeps (λ s, x ∈ tagsAvailable s ∧ x ∈ tagsPending s));
        [| done].
      intros s1 t [H1 H2] Ht Hnp. simpl. rewrite elem_of_del, elem_of_add.
      split; [split; [done | by intros ->] | by right].
    - destruct Hb as (Ho & _ & Hav & _).
      destruct (clearCache_tags false s) as (_ & -> & ->). rewrite Ho.
      rewrite !elem_of_exclude, !elem_of_include.
      destruct (Hav x Ha) as (? & ? & ?). tauto. }
  apply IH; [done | by apply runTagCall_bounded | done | done].
Qed.

(** The condition of [quiet_disjoint] is also necessary: without a full
    [clearCache] in the sequence, the two sets are disjoint at the end only
    if every [clearCache(false)] was quiet. *)
Lemma disjoint_quiet (o : ResolvedOptions) (cs : list TagCall) (s : State) :
  Forall notFullClear cs → tagsBounded htmlTags preflightTags o s →
  disjointSets
    (tagsAvailable (runTagCalls htmlTags preflightTags kebabCase cs s))
    (tagsPending (runTagCalls htmlTags preflightTags kebabCase cs s)) →
  quietClears htmlTags preflightTags kebabCase o cs s.
Proof.
  revert s. induction cs as [| c cs IH]; intros s Hcs Hb Hd; [done |].
  apply Forall_cons in Hcs as [Hc Hcs]. rewrite runTagCalls_cons in Hd.
  split; [| apply IH; [done | by apply runTagCall_bounded | done]].
  destruct c as [tags | [|]]; [done | done |]. cbn [runTagCall] in Hd.
  apply Forall_forall. intros x Hx (Hh & Hpre & Hsafe).
  destruct (overlap_kept o x cs (clearCache htmlTags preflightTags false s))
    as [H1 H2]; [done | by apply clearCache_bounded | | | by apply (Hd x)].
  - destruct Hb as (Ho & _).
    destruct (clearCache_tags false s) as (_ & _ & ->).
    rewrite Ho, !elem_of_exclude, elem_of_include. tauto.
  - destruct (clearCache_tags false s) as (_ & -> & _).
    rewrite !elem_of_include. tauto.
Qed.

(** C1, as the code has it.  After every sequence of [addTags] and
    [clearCache] calls from the initial state, [tagsGenerated] is empty and
    so disjoint from the other two sets, [tagsAvailable] holds only tags of
    [htmlTags] outside [preflightTags] and the preflight safelist, and
    [tagsPending] only tags of [htmlTags], [preflightTags] and that
    safelist.  The union of the sets is [htmlTags], [preflightTags] and the
    safelist taken together, blocklisted tags included, whenever the last
    [clearCache] of the sequence is [clearCache(false)]; after a last
    [clearCache(true)] nothing is available and the safelist alone is
    pending, and without any [clearCache] the sets are empty.
    [tagsAvailable] and [tagsPending] are disjoint whenever, after the last
    [clearCache(true)] or from the start, every [clearCache(false)] is
    called while [tagsPending] holds no tag of [htmlTags] outside
    [preflightTags] and the safelist; so in particular whenever, after the
    last [clearCache(true)] or from the start, the [clearCache] calls all
    come before the [addTags] calls, and then the sets partition the
    universe if the last [clearCache] is [clearCache(false)]. *)
Theorem C1_tag_sets (o : ResolvedOptions) (cs : list TagCall) :
  let s := runTagCalls htmlTags preflightTags kebabCase cs (initial o) in
  tagsGenerated s = []
  ∧ disjointSets (tagsAvailable s) (tagsGenerated s)
  ∧ disjointSets (tagsPending s) (tagsGenerated s)
  ∧ (∀ x, x ∈ tagsAvailable s → availableTag htmlTags preflightTags o x)
  ∧ (∀ x, x ∈ tagsPending s → x ∈ tagUniverse htmlTags preflightTags o)
  ∧ (∀ pre adds,
       cs = (pre ++ TagClear false :: adds)%list → Forall isTagAdd adds →
       ∀ x, (x ∈ tagsAvailable s ∨ x ∈ tagsPending s ∨ x ∈ tagsGenerated s)
            ↔ x ∈ tagUniverse htmlTags preflightTags o)
  ∧ (∀ pre adds,
       cs = (pre ++ TagClear true :: adds)%list → Forall isTagAdd adds →
       tagsAvailable s = []
       ∧ ∀ x, x ∈ tagsPending s ↔ x ∈ pf_safelist (preflightOptions o))
  ∧ (Forall isTagAdd cs → tagsAvailable s = [] ∧ tagsPending s = [])
  ∧ (∀ pre calls,
       cs = (pre ++ calls)%list → endsWithFullClear pre →
       quietClears htmlTags preflightTags kebabCase o calls
         (runTagCalls htmlTags preflightTags kebabCase pre (initial o)) →
       disjointSets (tagsAvailable s) (tagsPending s))
  ∧ (∀ pre clears adds,
       cs = (pre ++ clears ++ adds)%list → endsWithFullClear pre →
       Forall isTagClear clears → Forall isTagAdd adds →
       disjointSets (tagsAvailable s) (tagsPending s)
       ∧ (last (pre ++ clears)%list = Some (TagClear false) →
          tagsPartition (tagUniverse htmlTags preflightTags o) s)).
Proof.
  intros s. pose proof (initial_bounded o) as Hb0.
  destruct (runTagCalls_bounded o cs (initial o) Hb0) as (Ho & Hg & Ha & Hp).
  fold s in Ho, Hg, Ha, Hp.
  assert (∀ l, disjointSets l (tagsGenerated s)) as Hdg.
  { intros l x _. rewrite Hg. apply elem_of_nil. }
  split_and!; try done.
  - intros pre adds Hcs Hadds x.
    pose proof (cover_after_partial o pre adds Hadds x) as Hc.
    rewrite <- Hcs in Hc. fold s in Hc.
    rewrite <- Hc, Hg, elem_of_nil. tauto.
  - intros pre adds Hcs Hadds. subst s cs.
    rewrite runTagCalls_app, runTagCalls_cons. cbn [runTagCall].
    set (s0 := runTagCalls htmlTags preflightTags kebabCase pre (initial o)).
    destruct (clearCache_full_tags o s0) as (Hav & Hpe).
    { by destruct (runTagCalls_bounded o pre (initial o) Hb0). }
    destruct (adds_idle adds _ Hadds Hav) as (-> & ->). done.
  - intros Hadds. subst s.
    destruct (adds_idle cs (initial o) Hadds eq_refl) as (-> & ->). done.
  - intros pre calls Hcs Hpre Hq. subst s cs. rewrite runTagCalls_app.
    apply (quiet_disjoint o); [by apply runTagCalls_bounded | | done].
    apply (unrequested_disjoint o); [by apply runTagCalls_bounded |].
    by apply full_clear_unrequested.
  - intros pre clears adds Hcs Hpre Hclears Hadds.
    assert (disjointSets (tagsAvailable s) (tagsPending s)) as Hd.
    { subst s cs. rewrite !runTagCalls_app.
      apply (adds_keep (λ s, disjointSets (tagsAvailable s) (tagsPending s)));
        [apply moveTag_disjoint | done |].
      apply (unrequested_disjoint o); [by apply runTagCalls_bounded, runTagCalls_bounded |].
      apply clears_unrequested; [done | by apply runTagCalls_bounded |].
      by apply full_clear_unrequested. }
    split; [done |]. intros Hlast. apply last_Some in Hlast as (l & Hl).
    split_and!; try done. intros x.
    pose proof (cover_after_partial o l adds Hadds x) as Hc.
    replace (l ++ TagClear false :: adds)%list with cs in Hc.
    + fold s in Hc. rewrite <- Hc, Hg, elem_of_nil. tauto.
    + by rewrite Hcs, app_assoc, Hl, <- app_assoc.
Qed.

End Registry.

(** ** Layer store *)

Lemma touchedLayers_has (styles : list Style) (filepath : string)
    (replace : bool) (s : State) (x : string) :
  JsSet.has (touchedLayers styles filepath replace s) x = true
  ↔ x ∈ map meta_type styles
    ∨ (replace = true
       ∧ x ∈ map meta_type
               (default [] (JsMap.get (layerStylesMap s) filepath))).
Proof.
  unfold touchedLayers. rewrite has_true, !elem_of_addTypes, elem_of_nil.
  destruct replace; simpl; [tauto |]. rewrite elem_of_nil.
  split; [tauto |]. intros [? | [? ?]]; [tauto | done].
Qed.

Lemma updateLayers_layers (now : Z) (styles : list Style) (filepath : string)
    (replace : bool) (s : State) :
  layers (updateLayers now styles filepath replace s)
  = invalidate now (touchedLayers styles filepath replace s) (layers s).
Proof.
  unfold updateLayers, touchedLayers.
  destruct replace; [| done].
  by destruct (JsMap.get (layerStylesMap s) filepath).
Qed.

Lemma updateLayers_map (now : Z) (styles : list Style) (filepath : string)
    (replace : bool) (s : State) :
  layerStylesMap (updateLayers now styles filepath replace s)
  = JsMap.set filepath
      (if replace then styles
       else (default [] (JsMap.get (layerStylesMap s) filepath) ++ styles)%list)
      (layerStylesMap s).
Proof. unfold updateLayers. by destruct replace. Qed.

Lemma updateLayers_frame (now : Z) (styles : list Style) (filepath : string)
    (replace : bool) (s : State) :
  let s' := updateLayers now styles filepath replace s in
  s' = with_layers (layers s') (layerStylesMap s') s.
Proof. unfold updateLayers. by destruct replace. Qed.

Lemma updateLayers_layer (now : Z) (styles : list Style) (filepath : string)
    (replace : bool) (s : State) (name : LayerName) :
  layer_get (layers (updateLayers now styles filepath replace s)) name
  = if JsSet.has (touchedLayers styles filepath replace s) (layer_string name)
    then mkLayerMeta None (Some now)
    else layer_get (layers s) name.
Proof. by rewrite updateLayers_layers, layer_get_invalidate. Qed.

(** C5: [updateLayers] drops the cached CSS and sets the timestamp of the
    layers of the new nodes and, when [replace] is set, of the layers of the
    nodes stored before under the key, and of no other layer; it stores the
    new nodes in place of the old ones when [replace] is set (so of two such
    calls for one key only the nodes of the second stay) and after the old
    ones otherwise; nothing else changes. *)
Theorem C5_updateLayers (now : Z) (styles : list Style) (filepath : string)
    (replace : bool) (s : State) :
  let s' := updateLayers now styles filepath replace s in
  let prev := default [] (JsMap.get (layerStylesMap s) filepath) in
  let invalidated name :=
    layer_string name ∈ map meta_type styles
    ∨ (replace = true ∧ layer_string name ∈ map meta_type prev) in
  (∀ name, invalidated name →
           layer_get (layers s') name = mkLayerMeta None (Some now))
  ∧ (∀ name, ¬ invalidated name →
             layer_get (layers s') name = layer_get (layers s) name)
  ∧ JsMap.get (layerStylesMap s') filepath
    = Some (if replace then styles else (prev ++ styles)%list)
  ∧ (∀ k, k ≠ filepath →
          JsMap.get (layerStylesMap s') k = JsMap.get (layerStylesMap s) k)
  ∧ s' = with_layers (layers s') (layerStylesMap s') s
  ∧ (∀ now2 styles2,
       JsMap.get
         (layerStylesMap
            (updateLayers now2 styles2 filepath true
               (updateLayers now styles filepath true s))) filepath
       = Some styles2)
  ∧ (∀ now2 styles2,
       JsMap.get
         (layerStylesMap
            (updateLayers now2 styles2 filepath false
               (updateLayers now styles filepath false s))) filepath
       = Some ((prev ++ styles) ++ styles2)%list).
Proof.
  intros s' prev invalidated. split_and!.
  - intros name Hn. subst s'. rewrite updateLayers_layer.
    by apply touchedLayers_has in Hn as ->.
  - intros name Hn. subst s'. rewrite updateLayers_layer.
    destruct (JsSet.has _ _) eqn:E; [| done].
    by apply touchedLayers_has in E.
  - subst s'. by rewrite updateLayers_map, get_set_eq.
  - intros k Hk. subst s'. by rewrite updateLayers_map, get_set_ne.
  - apply updateLayers_frame.
  - intros now2 styles2. by rewrite updateLayers_map, get_set_eq.
  - intros now2 styles2.
    by rewrite !updateLayers_map, !get_set_eq.
Qed.

Section Layers.

Variable buildSheet : bool → bool → list Style → string.

Lemma buildLayerCss_cached (name : LayerName) (s : State) (css : string) :
  cssCache (layer_get (layers s) name) = Some css →
  buildLayerCss buildSheet name s = (css, s).
Proof. intros H. unfold buildLayerCss. by rewrite H. Qed.

Lemma buildLayerCss_dirty (name : LayerName) (s : State) :
  cssCache (layer_get (layers s) name) = None →
  let r := buildLayerCss buildSheet name s in
  r.1 = layerText buildSheet name s
  ∧ trace r.2
    = (trace s
       ++ [EvBuildSheet name (default true (config_prefixer (options s)))
             (sortUtilities (options s)) (layerChildren name s)])%list
  ∧ layers r.2
    = layer_set name
        (mkLayerMeta (Some (layerText buildSheet name s))
           (timestamp (layer_get (layers s) name)))
        (layers s)
  ∧ layerStylesMap r.2 = layerStylesMap s
  ∧ options r.2 = options s.
Proof. intros H. unfold buildLayerCss. by rewrite H. Qed.

Lemma buildCount_snoc (name : LayerName) (t : list Event) (e : Event) :
  buildCount name (t ++ [e])
  = buildCount name t + (if isBuildOf name e then 1 else 0).
Proof.
  unfold buildCount. rewrite filter_app, length_app. f_equal.
  destruct (isBuildOf name e) eqn:E.
  - by rewrite filter_cons_True.
  - rewrite filter_cons_False; [done |]. by rewrite E.
Qed.

(** A call that does not invalidate a cached layer keeps its cache and
    does not build it. *)
Lemma runLayerCall_quiet (name : LayerName) (css : string) (c : LayerCall)
    (s : State) :
  cssCache (layer_get (layers s) name) = Some css →
  touches name c s = false →
  let s' := runLayerCall buildSheet s c in
  cssCache (layer_get (layers s') name) = Some css
  ∧ buildCount name (trace s') = buildCount name (trace s).
Proof.
  intros Hc Ht. destruct c as [now styles filepath replace | n];
    cbn [runLayerCall touches] in *.
  - rewrite updateLayers_layer, Ht. split; [done |].
    by rewrite (updateLayers_frame now styles filepath replace s).
  - destruct (cssCache (layer_get (layers s) n)) as [css' |] eqn:En.
    + by rewrite (buildLayerCss_cached n s css').
    + destruct (buildLayerCss_dirty n s En) as (_ & -> & -> & _).
      assert (n ≠ name) as Hne by (intros ->; congruence).
      rewrite layer_get_set, decide_False by done.
      rewrite buildCount_snoc. simpl. rewrite bool_decide_false by done.
      split; [done | lia].
Qed.

Lemma runLayerCalls_quiet (name : LayerName) (css : string)
    (cs : list LayerCall) (s : State) :
  cssCache (layer_get (layers s) name) = Some css →
  untouched buildSheet name cs s = true →
  let s' := runLayerCalls buildSheet cs s in
  cssCache (layer_get (layers s') name) = Some css
  ∧ buildCount name (trace s') = buildCount name (trace s).
Proof.
  revert s. induction cs as [| c cs IH]; intros s Hc Hu; [done |].
  cbn [untouched] in Hu. apply andb_true_iff in Hu as [Ht Hu].
  apply negb_true_iff in Ht.
  destruct (runLayerCall_quiet name css c s Hc Ht) as (Hc' & Hn).
  destruct (IH _ Hc' Hu) as (? & Hn').
  unfold runLayerCalls. cbn [foldl]. split; [done |].
  etrans; [apply Hn' | apply Hn].
Qed.

(** C6: once [updateLayers] has invalidated a layer, the next
    [buildLayerCss] of it builds the style sheet once and keeps the text;
    whatever [buildLayerCss] and [updateLayers] calls follow, as long as
    no [updateLayers] among them invalidates the layer, [buildLayerCss]
    returns that text and the sheet is not built again; and whenever a
    text is cached, [buildLayerCss] returns it and changes nothing. *)
Theorem C6_cache_coherence (name : LayerName) (now : Z) (styles : list Style)
    (filepath : string) (replace : bool) (s : State) :
  (JsSet.has (touchedLayers styles filepath replace s) (layer_string name)
   = true →
   let s1 := updateLayers now styles filepath replace s in
   let r := buildLayerCss buildSheet name s1 in
   cssCache (layer_get (layers s1) name) = None
   ∧ r.1 = layerText buildSheet name s1
   ∧ trace r.2
     = (trace s1
        ++ [EvBuildSheet name (default true (config_prefixer (options s1)))
              (sortUtilities (options s1)) (layerChildren name s1)])%list
   ∧ buildCount name (trace r.2) = S (buildCount name (trace s1))
   ∧ cssCache (layer_get (layers r.2) name) = Some r.1
   ∧ (∀ cs, untouched buildSheet name cs r.2 = true →
            let s3 := runLayerCalls buildSheet cs r.2 in
            buildLayerCss buildSheet name s3 = (r.1, s3)
            ∧ buildCount name (trace s3) = buildCount name (trace r.2)))
  ∧ (∀ css, cssCache (layer_get (layers s) name) = Some css →
            buildLayerCss buildSheet name s = (css, s)).
Proof.
  split; [| apply buildLayerCss_cached].
  intros Ht s1 r.
  assert (cssCache (layer_get (layers s1) name) = None) as Hnone.
  { subst s1. by rewrite updateLayers_layer, Ht. }
  destruct (buildLayerCss_dirty name s1 Hnone) as (Hcss & Htr & Hl & _).
  fold r in Hcss, Htr, Hl.
  assert (cssCache (layer_get (layers r.2) name) = Some r.1) as Hsome.
  { by rewrite Hl, layer_get_set, decide_True, Hcss. }
  split_and!; try done.
  - rewrite Htr, buildCount_snoc. simpl. rewrite bool_decide_true by done.
    lia.
  - intros cs Hu s3.
    destruct (runLayerCalls_quiet name r.1 cs r.2 Hsome Hu) as (Hc & Hn).
    split; [by apply buildLayerCss_cached | done].
Qed.

End Layers.

(** ** Compiler bridge *)

Lemma size_nonempty (l : list string) :
  l ≠ [] → bool_decide (JsSet.size l = 0) = false.
Proof. intros H. apply bool_decide_eq_false. by destruct l. Qed.

Lemma compileClasses_eq (now : Z) (s : State) (p : Processor) :
  processor s = Some p → classesPending s ≠ [] →
  let input := String.concat " " (classesPending s) in
  let result := interpret p input in
  let s1 := emit (EvInterpret input) s in
  compileClasses now s
  = Some (if bool_decide (length (success result) = 0) then s1
          else with_classes (include (classesGenerated s) (success result)) []
                 (updateLayers now (styleSheet_children result)
                    "__classes" false s1)).
Proof.
  intros Hp Hne. unfold compileClasses.
  rewrite size_nonempty, Hp by done. simpl.
  by destruct (bool_decide (length (success _) = 0)).
Qed.

(** The preflight block leaves the class registry and the contribution of
    the compiled classes alone. *)
Lemma compileTags_classes (now : Z) (s s' : State) :
  compileTags now s = Some s' →
  classesPending s' = classesPending s
  ∧ classesGenerated s' = classesGenerated s
  ∧ JsMap.get (layerStylesMap s') "__classes"
    = JsMap.get (layerStylesMap s) "__classes"
  ∧ options s' = options s
  ∧ (enablePreflight (options s) = false → s' = s).
Proof.
  unfold compileTags. destruct (enablePreflight (options s));
    [| by intros [= <-]].
  destruct (includeAll _ || _); [| by intros [= <-]].
  destruct (processor s) as [p |]; [| done]. simpl. intros [= <-].
  split_and!; try done. simpl. by rewrite get_set_ne.
Qed.

Lemma compileTags_total (now : Z) (s : State) (p : Processor) :
  processor s = Some p → is_Some (compileTags now s).
Proof.
  intros Hp. unfold compileTags. rewrite Hp.
  destruct (enablePreflight (options s)); [| done].
  by destruct (includeAll _ || _).
Qed.

(** [buildPendingStyles] around its two blocks. *)
Lemma buildPendingStyles_eq (now1 now2 : Z) (s : State) :
  ∃ s0, classesPending s0 = classesPending s
        ∧ classesGenerated s0 = classesGenerated s
        ∧ layerStylesMap s0 = layerStylesMap s
        ∧ layers s0 = layers s
        ∧ options s0 = options s
        ∧ processor s0 = processor s
        ∧ ∀ s1 s2,
            compileClasses now1 s0 = Some s1 →
            compileTags now2 s1 = Some s2 →
            ∃ s3, buildPendingStyles now1 now2 s = Some s3
                  ∧ classesPending s3 = classesPending s2
                  ∧ classesGenerated s3 = classesGenerated s2
                  ∧ layerStylesMap s3 = layerStylesMap s2
                  ∧ layers s3 = layers s2.
Proof.
  unfold buildPendingStyles.
  exists (if has_onBeforeGenerate (options s)
          then emit (EvOnBeforeGenerate (classesPending s) (tagsPending s)) s
          else s).
  split_and!; try by destruct (has_onBeforeGenerate (options s)).
  intros s1 s2 -> H2. simpl. rewrite H2. simpl.
  eexists. split; [done |]. by destruct (has_onGenerated (options s2)).
Qed.

(** C7: with classes pending and a non-empty success list from
    [interpret], [buildPendingStyles] stores the produced nodes after those
    already under the key of the generated classes, adds the successful
    tokens to [classesGenerated] and empties [classesPending], tokens
    outside the success list included. *)
Theorem C7_partial_success_clears_pending (now1 now2 : Z) (s : State)
    (p : Processor) :
  processor s = Some p →
  classesPending s ≠ [] →
  let result := interpret p (String.concat " " (classesPending s)) in
  success result ≠ [] →
  ∃ s', buildPendingStyles now1 now2 s = Some s'
        ∧ JsMap.get (layerStylesMap s') "__classes"
          = Some (default [] (JsMap.get (layerStylesMap s) "__classes")
                  ++ styleSheet_children result)%list
        ∧ (∀ x, x ∈ classesGenerated s'
                ↔ x ∈ classesGenerated s ∨ x ∈ success result)
        ∧ classesPending s' = []
        ∧ (∀ x, x ∈ classesPending s → x ∉ success result →
                (x ∉ classesPending s')
                ∧ (x ∈ classesGenerated s' → x ∈ classesGenerated s)).
Proof.
  intros Hp Hne result Hs.
  destruct (buildPendingStyles_eq now1 now2 s)
    as (s0 & Hp0 & Hg0 & Hm0 & _ & _ & Hpr0 & Hrun).
  rewrite <- Hpr0 in Hp. rewrite <- Hp0 in Hne.
  pose proof (compileClasses_eq now1 s0 p Hp Hne) as Hc. simpl in Hc.
  rewrite Hp0 in Hc. fold result in Hc.
  rewrite bool_decide_false in Hc by (by destruct (success result)).
  match type of Hc with _ = Some ?x => set (s1 := x) in * end.
  assert (processor s1 = Some p) as Hp1 by (by subst s1).
  destruct (compileTags_total now2 s1 p Hp1) as [s2 H2].
  destruct (Hrun _ _ Hc H2) as (s3 & Hb & Hp3 & Hg3 & Hm3 & _).
  destruct (compileTags_classes _ _ _ H2) as (Hp2 & Hg2 & Hm2 & _).
  exists s3. split; [done |].
  assert (∀ x, x ∈ classesGenerated s3
               ↔ x ∈ classesGenerated s ∨ x ∈ success result) as Hgen.
  { intros x. rewrite Hg3, Hg2. simpl. by rewrite elem_of_include, Hg0. }
  split_and!.
  - rewrite Hm3, Hm2. simpl. by rewrite get_set_eq, Hm0.
  - done.
  - by rewrite Hp3, Hp2.
  - intros x Hx Hnot. rewrite Hp3, Hp2. simpl. split.
    + apply not_elem_of_nil.
    + rewrite Hgen. tauto.
Qed.

(** C10: with classes pending and an empty success list from [interpret],
    the class block of [buildPendingStyles] changes nothing but the record
    of the call, so [classesPending], [classesGenerated], the contribution
    of the generated classes and the metadata of every layer are as
    before it; the whole call leaves the first three as they were, and the
    layers too when preflight is off. *)
Theorem C10_total_failure_atomic (now1 now2 : Z) (s : State) (p : Processor) :
  processor s = Some p →
  classesPending s ≠ [] →
  let input := String.concat " " (classesPending s) in
  success (interpret p input) = [] →
  compileClasses now1 s = Some (emit (EvInterpret input) s)
  ∧ ∃ s', buildPendingStyles now1 now2 s = Some s'
          ∧ classesPending s' = classesPending s
          ∧ classesGenerated s' = classesGenerated s
          ∧ JsMap.get (layerStylesMap s') "__classes"
            = JsMap.get (layerStylesMap s) "__classes"
          ∧ (enablePreflight (options s) = false →
             layers s' = layers s ∧ layerStylesMap s' = layerStylesMap s).
Proof.
  intros Hp Hne input Hs. split.
  - rewrite (compileClasses_eq now1 s p Hp Hne). simpl. fold input.
    by rewrite Hs.
  - destruct (buildPendingStyles_eq now1 now2 s)
      as (s0 & Hp0 & Hg0 & Hm0 & Hl0 & Ho0 & Hpr0 & Hrun).
    rewrite <- Hpr0 in Hp. rewrite <- Hp0 in Hne.
    pose proof (compileClasses_eq now1 s0 p Hp Hne) as Hc. simpl in Hc.
    rewrite Hp0 in Hc. fold input in Hc. rewrite Hs in Hc. simpl in Hc.
    destruct (compileTags_total now2 (emit (EvInterpret input) s0) p Hp)
      as [s2 H2].
    destruct (Hrun _ _ Hc H2) as (s3 & Hb & Hp3 & Hg3 & Hm3 & Hl3).
    destruct (compileTags_classes _ _ _ H2) as (Hp2 & Hg2 & Hm2 & _ & Hoff).
    exists s3. split; [done |]. split_and!.
    + by rewrite Hp3, Hp2.
    + by rewrite Hg3, Hg2.
    + by rewrite Hm3, Hm2, <- Hm0.
    + intros Hpf. simpl in Hoff. rewrite Ho0 in Hoff.
      rewrite Hl3, Hm3, (Hoff Hpf). simpl. by rewrite Hl0, Hm0.
Qed.

(** ** The cached texts are those of the stored nodes *)




Lemma elem_of_layerChildren (name : LayerName) (s : State) (x : Style) :
  x ∈ layerChildren name s
  ↔ meta_type x = layer_string name
    ∧ ∃ k nodes, (k, nodes) ∈ layerStylesMap s ∧ x ∈ nodes.
Proof.
  unfold layerChildren, JsMap.values.
  rewrite list_elem_of_filter, list_elem_of_In, in_concat.
  split; intros [Ht Hx]; (split; [done |]).
  - destruct Hx as (nodes & Hn & Hx).
    apply list_elem_of_In, list_elem_of_fmap in Hn as ([k nodes'] & -> & Hn).
    apply list_elem_of_In in Hx. eauto.
  - destruct Hx as (k & nodes & Hn & Hx). exists nodes.
    split; [| by apply list_elem_of_In].
    apply list_elem_of_In, list_elem_of_fmap. by exists (k, nodes).
Qed.

Section Reachable.

Variable htmlTags : list string.
Variable preflightTags : list string.
Variable kebabCase : string → string.
Variable buildSheet : bool → bool → list Style → string.
Variable newProcessor : ResolvedOptions → Processor.
Variable trim : string → string.




Lemma buildLayerCss_coherent (name : LayerName) (s : State) :
  coherent buildSheet s →
  let r := buildLayerCss buildSheet name s in
  r.1 = layerText buildSheet name s
  ∧ layerText buildSheet name r.2 = layerText buildSheet name s
  ∧ layerChildren name r.2 = layerChildren name s
  ∧ coherent buildSheet r.2.
Proof.
  intros Hc. destruct (cssCache (layer_get (layers s) name)) as [css |] eqn:E.
  - rewrite (buildLayerCss_cached buildSheet name s css E). simpl.
    split_and!; try done. by apply Hc.
  - destruct (buildLayerCss_dirty buildSheet name s E)
      as (Hcss & _ & Hl & Hm & Ho).
    intros r. fold r in Hcss, Hl, Hm, Ho.
    assert (∀ n, layerText buildSheet n r.2 = layerText buildSheet n s) as Ht.
    { intros n. unfold layerText, layerChildren. by rewrite Hm, Ho. }
    split_and!; try done.
    + unfold layerChildren. by rewrite Hm.
    + intros n css. rewrite Hl, layer_get_set, Ht.
      destruct (decide (name = n)) as [-> | Hne]; [| apply Hc].
      simpl. by intros [= <-].
Qed.









End Reachable.

(** ** Initialization coordinator *)

Lemma initCount_snoc (t : list Event) (e : Event) :
  initCount (t ++ [e]) = initCount t + (if isInitStart e then 1 else 0).
Proof.
  unfold initCount. rewrite filter_app, length_app. f_equal.
  destruct (isInitStart e) eqn:E.
  - by rewrite filter_cons_True.
  - rewrite filter_cons_False; [done |]. by rewrite E.
Qed.

Section Init.

Variable htmlTags : list string.
Variable preflightTags : list string.
Variable newProcessor : ResolvedOptions → Processor.

(** The first call of [ensureInit]. *)
Lemma ensureInit_first (s : State) :
  processor s = None → _promise_init s = None →
  let pid := length (promises s) in
  let r := ensureInit s in
  r.1 = Follows pid
  ∧ processor r.2 = None
  ∧ _promise_init r.2 = Some pid
  ∧ promises r.2 = (promises s ++ [Pending])%list
  ∧ trace r.2 = (trace s ++ [EvResolveOptions pid])%list.
Proof. intros Hp Hi. unfold ensureInit. by rewrite Hp, Hi. Qed.

Lemma ensureInit_stored (s : State) (pid : nat) :
  processor s = None → _promise_init s = Some pid →
  ensureInit s = (Follows pid, s).
Proof. intros Hp Hi. unfold ensureInit. by rewrite Hp, Hi. Qed.

Lemma ensureInit_ready (s : State) (p : Processor) :
  processor s = Some p → ensureInit s = (Ready p, s).
Proof. intros Hp. unfold ensureInit. by rewrite Hp. Qed.

(** [_init] running to its end. *)
Lemma _init_resume_fulfilled (pid : nat) (o : ResolvedOptions) (s : State) :
  pid < length (promises s) →
  let s' := _init_resume htmlTags preflightTags newProcessor pid (inr o) s in
  promises s' !! pid = Some (Fulfilled (newProcessor o))
  ∧ processor s' = Some (newProcessor o)
  ∧ options s' = o
  ∧ initCount (trace s') = initCount (trace s).
Proof.
  intros Hlt. cbn [_init_resume]. unfold settle.
  destruct (has_onInitialized o); simpl;
    (split_and!; [by apply list_lookup_insert_eq | done | done |]).
  - rewrite initCount_snoc. simpl. lia.
  - done.
Qed.

(** [resolveOptions] rejecting. *)
Lemma _init_resume_rejected (pid : nat) (reason : string) (s : State) :
  pid < length (promises s) →
  let s' :=
    _init_resume htmlTags preflightTags newProcessor pid (inl reason) s in
  promises s' !! pid = Some (Rejected reason)
  ∧ processor s' = processor s
  ∧ _promise_init s' = _promise_init s
  ∧ trace s' = trace s.
Proof.
  intros Hlt. cbn [_init_resume]. unfold settle. simpl.
  split_and!; try done. by apply list_lookup_insert_eq.
Qed.

(** C9, as the code has it: [ensureInit] returns the processor when there
    is one; otherwise it returns the stored promise of [_init] when one
    was stored, be it pending or rejected, and starts nothing; otherwise it
    calls [_init] and stores its promise.  Two first calls in a row get
    the same promise and [_init] is entered once; when it runs to its end
    both get the processor it made, and when it rejects both get the
    rejection and a later [ensureInit] still starts nothing. *)
Theorem C9_ensureInit_single_flight (s : State) :
  (∀ p, processor s = Some p → ensureInit s = (Ready p, s))
  ∧ (∀ pid, processor s = None → _promise_init s = Some pid →
            ensureInit s = (Follows pid, s))
  ∧ (processor s = None → _promise_init s = None →
     let pid := length (promises s) in
     let r1 := ensureInit s in
     let r2 := ensureInit r1.2 in
     r1.1 = Follows pid
     ∧ promises r1.2 !! pid = Some Pending
     ∧ trace r1.2 = (trace s ++ [EvResolveOptions pid])%list
     ∧ r2 = (Follows pid, r1.2)
     ∧ initCount (trace r2.2) = S (initCount (trace s))
     ∧ (∀ o,
          let s3 :=
            _init_resume htmlTags preflightTags newProcessor pid (inr o)
              r2.2 in
          promises s3 !! pid = Some (Fulfilled (newProcessor o))
          ∧ initCount (trace s3) = S (initCount (trace s))
          ∧ ensureInit s3 = (Ready (newProcessor o), s3))
     ∧ (∀ reason,
          let s3 :=
            _init_resume htmlTags preflightTags newProcessor pid
              (inl reason) r2.2 in
          promises s3 !! pid = Some (Rejected reason)
          ∧ ensureInit s3 = (Follows pid, s3))).
Proof.
  split; [apply ensureInit_ready |]. split; [apply ensureInit_stored |].
  intros Hp Hi pid r1 r2.
  destruct (ensureInit_first s Hp Hi) as (H1 & Hp1 & Hi1 & Hps1 & Ht1).
  fold pid r1 in H1, Hp1, Hi1, Hps1, Ht1.
  assert (r2 = (Follows pid, r1.2)) as H2
    by (by apply ensureInit_stored).
  assert (pid < length (promises r1.2)) as Hlt.
  { rewrite Hps1, length_app. simpl. lia. }
  assert (initCount (trace r1.2) = S (initCount (trace s))) as Hn.
  { rewrite Ht1, initCount_snoc. simpl. lia. }
  rewrite H2. cbn [snd]. split_and!; try done.
  - rewrite Hps1. by apply list_lookup_middle.
  - intros o.
    destruct (_init_resume_fulfilled pid o r1.2 Hlt) as (Hf & Hpr & _ & Hc).
    split_and!; [done | congruence |]. by apply ensureInit_ready.
  - intros reason.
    destruct (_init_resume_rejected pid reason r1.2 Hlt)
      as (Hf & Hpr & Hpi & _).
    split; [done |]. apply ensureInit_stored; congruence.
Qed.

End Init.

(** ** The properties on the small configuration *)

Lemma subset_check (a b : list string) :
  forallb (JsSet.has b) a = true → ∀ x, x ∈ a → x ∈ b.
Proof.
  intros H x Hx. rewrite forallb_forall in H.
  apply has_true, H. by apply list_elem_of_In.
Qed.

Lemma disjoint_check (a b : list string) :
  forallb (λ x, negb (JsSet.has b x)) a = true → disjointSets a b.
Proof.
  intros H x Hx Hx'. rewrite forallb_forall in H.
  apply list_elem_of_In, H, negb_true_iff, has_false in Hx. done.
Qed.

(** C1, as stated, fails twice.  After a full [clearCache] the three sets
    are empty although [a] is a known tag that no list excludes, so they
    cover no universe that holds [a].  After an initialization, a request
    for [a] and a second initialization, [a] is both available and pending,
    so the sets partition nothing. *)
Lemma C1_counterexample :
  (let s :=
     runTagCalls Demo.htmlTags Demo.preflightTags Demo.kebabCase
       [TagClear true] (initial Demo.opts) in
   "a" ∈ Demo.htmlTags ∧ ("a" ∉ Demo.preflightTags)
   ∧ ("a" ∉ pf_blocklist (preflightOptions Demo.opts))
   ∧ tagsAvailable s = [] ∧ tagsPending s = [] ∧ tagsGenerated s = []
   ∧ ∀ U, "a" ∈ U → ¬ tagsPartition U s)
  ∧ Demo.reloaded
    = runTagCalls Demo.htmlTags Demo.preflightTags Demo.kebabCase
        [TagClear false; TagAdd ["a"]; TagClear false] (initial Demo.opts)
  ∧ "a" ∈ tagsAvailable Demo.reloaded
  ∧ "a" ∈ tagsPending Demo.reloaded
  ∧ ¬ ∃ U, tagsPartition U Demo.reloaded.
Proof.
  assert ("a" ∈ tagsAvailable Demo.reloaded) as Ha
    by (apply has_true; reflexivity).
  assert ("a" ∈ tagsPending Demo.reloaded) as Hp
    by (apply has_true; reflexivity).
  split; [cbv zeta; split_and!; try reflexivity | split_and!; try done].
  - apply has_true. reflexivity.
  - apply has_false. reflexivity.
  - apply has_false. reflexivity.
  - intros U HU (_ & _ & _ & Hc). apply Hc in HU.
    destruct HU as [H | [H | H]]; by apply elem_of_nil in H.
  - intros (U & Hd & _). by apply (Hd "a").
Qed.

(** After one initialization and a request for [a] the tag sets partition
    the universe; after the second initialization of [Demo.reloaded] they
    still cover it; and after a full [clearCache], an initialization and a
    request, the available and the pending tags are disjoint again. *)
Lemma C1_tag_sets_witness :
  tagsPartition
    (tagUniverse Demo.htmlTags Demo.preflightTags Demo.opts)
    (runTagCalls Demo.htmlTags Demo.preflightTags Demo.kebabCase
       [TagClear false; TagAdd ["a"]] (initial Demo.opts))
  ∧ tagsCover Demo.htmlTags Demo.preflightTags Demo.opts Demo.reloaded
  ∧ disjointSets
      (tagsAvailable
         (runTagCalls Demo.htmlTags Demo.preflightTags Demo.kebabCase
            [TagClear false; TagAdd ["a"]; TagClear true; TagClear false;
             TagAdd ["a"]] (initial Demo.opts)))
      (tagsPending
         (runTagCalls Demo.htmlTags Demo.preflightTags Demo.kebabCase
            [TagClear false; TagAdd ["a"]; TagClear true; TagClear false;
             TagAdd ["a"]] (initial Demo.opts))).
Proof.
  split; [| split].
  - destruct (C1_tag_sets Demo.htmlTags Demo.preflightTags Demo.kebabCase
                Demo.opts [TagClear false; TagAdd ["a"]])
      as (_ & _ & _ & _ & _ & _ & _ & _ & _ & H).
    destruct (H [] [TagClear false] [TagAdd ["a"]]) as (_ & Hp).
    + reflexivity.
    + left. reflexivity.
    + repeat constructor.
    + repeat constructor.
    + apply Hp. reflexivity.
  - unfold Demo.reloaded.
    destruct (C1_tag_sets Demo.htmlTags Demo.preflightTags Demo.kebabCase
                Demo.opts [TagClear false; TagAdd ["a"]; TagClear false])
      as (Hg & _ & _ & _ & _ & H & _).
    intros x.
    destruct (H [TagClear false; TagAdd ["a"]] [] eq_refl (Forall_nil_2 _) x)
      as [H1 H2].
    split.
    + intros [Hx | Hx]; apply H1; [by left | by right; left].
    + intros Hx. destruct (H2 Hx) as [Hx' | [Hx' | Hx']];
        [by left | by right |].
      rewrite Hg in Hx'. by apply elem_of_nil in Hx'.
  - destruct (C1_tag_sets Demo.htmlTags Demo.preflightTags Demo.kebabCase
                Demo.opts
                [TagClear false; TagAdd ["a"]; TagClear true; TagClear false;
                 TagAdd ["a"]])
      as (_ & _ & _ & _ & _ & _ & _ & _ & _ & H).
    destruct (H [TagClear false; TagAdd ["a"]; TagClear true]
                [TagClear false] [TagAdd ["a"]]) as (Hd & _).
    + reflexivity.
    + right. reflexivity.
    + repeat constructor.
    + repeat constructor.
    + exact Hd.
Defined.

(** After a compilation, further classes and a reload keep the class sets
    disjoint. *)
Lemma C2_classes_disjoint_witness :
  disjointSets (classesGenerated Demo.compiled) (classesPending Demo.compiled)
  ∧ let s :=
      runClassCalls Demo.htmlTags Demo.preflightTags
        [ClassAdd ["p-4"; "m-1"]; ClassClear false] Demo.compiled in
    disjointSets (classesGenerated s) (classesPending s).
Proof.
  assert (disjointSets (classesGenerated Demo.compiled)
            (classesPending Demo.compiled)) as Hd
    by (apply disjoint_check; reflexivity).
  split; [exact Hd |].
  exact (proj2 (C2_classes_disjoint Demo.htmlTags Demo.preflightTags Demo.opts
                  [ClassAdd ["p-4"; "m-1"]; ClassClear false])
           Demo.compiled Hd).
Defined.

(** [p-4] is inserted once. *)
Lemma C3_addClasses_inserts_witness :
  insertable Demo.ready "p-4" = true
  ∧ (addClasses ["p-4"] Demo.ready).1 = true
  ∧ (addClasses ["p-4"] (addClasses ["p-4"] Demo.ready).2).1 = false.
Proof.
  assert (insertable Demo.ready "p-4" = true) as Hi by reflexivity.
  destruct (C3_addClasses_inserts [] Demo.ready) as (_ & _ & _ & H).
  destruct (H "p-4" Hi) as (H1 & _ & H2 & _).
  split; [exact Hi |]. split; [exact H1 | exact H2].
Defined.

(** After a reload [a] is available because it is a known tag that no
    list excludes. *)
Lemma C4_clearCache_requeues_witness :
  "a" ∈ tagsAvailable
          (clearCache Demo.htmlTags Demo.preflightTags false Demo.compiled)
  ↔ "a" ∈ Demo.htmlTags ∧ ("a" ∉ Demo.preflightTags)
    ∧ ("a" ∉ pf_safelist (preflightOptions (options Demo.compiled))).
Proof.
  destruct (C4_clearCache_requeues Demo.htmlTags Demo.preflightTags
              Demo.compiled) as (_ & _ & _ & _ & _ & _ & _ & H & _).
  apply H. apply subset_check. reflexivity.
Defined.

(** A base block of a style file invalidates the base layer. *)
Lemma C5_updateLayers_witness :
  layer_get
    (layers (updateLayers 7 [mkStyle "base" "a{}"] "a.css" true Demo.compiled))
    Base
  = mkLayerMeta None (Some 7%Z).
Proof.
  destruct (C5_updateLayers 7 [mkStyle "base" "a{}"] "a.css" true
              Demo.compiled) as (H & _).
  apply H. left. apply has_true. reflexivity.
Defined.

(** The base layer is built once after the edit and read from the cache
    afterwards. *)
Lemma C6_cache_coherence_witness :
  buildCount Base (trace (buildLayerCss Demo.buildSheet Base Demo.edited).2)
  = S (buildCount Base (trace Demo.edited))
  ∧ buildLayerCss Demo.buildSheet Base
      (buildLayerCss Demo.buildSheet Base Demo.edited).2
    = buildLayerCss Demo.buildSheet Base Demo.edited.
Proof.
  destruct (C6_cache_coherence Demo.buildSheet Base 7
              [mkStyle "base" "a{}"] "a.css" true Demo.compiled) as (H & _).
  destruct (H eq_refl) as (_ & _ & _ & Hn & _ & Hq).
  split; [exact Hn |].
  etrans; [exact (proj1 (Hq [] eq_refl)) |].
  symmetry. apply surjective_pairing.
Defined.

(** [p-4] compiles, [zzz] does not, and both leave the pending set. *)
Lemma C7_partial_success_clears_pending_witness :
  ∃ s', buildPendingStyles 5 6
          (addClasses ["p-4"; "zzz"] Demo.ready).2 = Some s'
        ∧ classesPending s' = [].
Proof.
  destruct (C7_partial_success_clears_pending 5 6
              (addClasses ["p-4"; "zzz"] Demo.ready).2 Demo.proc)
    as (s' & Hb & _ & _ & Hp & _).
  - reflexivity.
  - discriminate.
  - discriminate.
  - exists s'. split; [exact Hb | exact Hp].
Defined.


(** C9, as stated, fails: after a failed initialization there is no
    processor and no initialization in flight, yet [ensureInit] starts none
    and returns the rejected promise. *)
Lemma C9_counterexample :
  processor Demo.failed = None
  ∧ inFlight Demo.failed = None
  ∧ promises Demo.failed !! 0 = Some (Rejected "no config")
  ∧ ensureInit Demo.failed = (Follows 0, Demo.failed)
  ∧ (ensureInit_spec Demo.failed).1 = Follows 1
  ∧ ensureInit Demo.failed ≠ ensureInit_spec Demo.failed.
Proof.
  split_and!; try reflexivity.
  intros H. apply (f_equal fst) in H. discriminate H.
Qed.

(** Two first calls share promise 0 and one initialization; once ready,
    the processor is returned. *)
Lemma C9_ensureInit_single_flight_witness :
  (ensureInit (initial Demo.opts)).1 = Follows 0
  ∧ ensureInit (ensureInit (initial Demo.opts)).2
    = (Follows 0, (ensureInit (initial Demo.opts)).2)
  ∧ initCount (trace (ensureInit (ensureInit (initial Demo.opts)).2).2) = 1
  ∧ (ensureInit Demo.ready).1 = Ready Demo.proc.
Proof.
  destruct (C9_ensureInit_single_flight Demo.htmlTags Demo.preflightTags
              Demo.newProcessor (initial Demo.opts)) as (_ & _ & H).
  destruct (H eq_refl eq_refl) as (H1 & _ & _ & H2 & Hn & _).
  split; [exact H1 |]. split; [exact H2 |]. split; [exact Hn |].
  destruct (C9_ensureInit_single_flight Demo.htmlTags Demo.preflightTags
              Demo.newProcessor Demo.ready) as (Hr & _).
  exact (f_equal fst (Hr Demo.proc eq_refl)).
Defined.

(** [zzz] alone does not compile and stays pending. *)
Lemma C10_total_failure_atomic_witness :
  compileClasses 5 Demo.unknown
  = Some (emit (EvInterpret "zzz") Demo.unknown)
  ∧ ∃ s', buildPendingStyles 5 6 Demo.unknown = Some s'
          ∧ classesPending s' = ["zzz"]
          ∧ classesGenerated s' = [].
Proof.
  destruct (C10_total_failure_atomic 5 6 Demo.unknown Demo.proc)
    as (Hc & s' & Hb & Hp & Hg & _).
  - reflexivity.
  - discriminate.
  - reflexivity.
  - split; [exact Hc |]. exists s'. split; [exact Hb |].
    split; [exact Hp | exact Hg].
Defined.

(** * Further properties *)

(** ** More on sets *)

Lemma add_absent (x : string) (s : list string) :
  x ∉ s → JsSet.add x s = (s ++ [x])%list.
Proof. intros H. unfold JsSet.add. by apply has_false in H as ->. Qed.

Lemma add_present (x : string) (s : list string) :
  x ∈ s → JsSet.add x s = s.
Proof. intros H. unfold JsSet.add. by apply has_true in H as ->. Qed.

Lemma include_absorb (s v : list string) :
  (∀ x, x ∈ v → x ∈ s) → include s v = s.
Proof.
  unfold include. induction v as [| i v IH]; intros H; [done |].
  cbn [foldl]. rewrite add_present by (apply H; by left).
  apply IH. intros x Hx. apply H. by right.
Qed.

Lemma del_app (x : string) (a b : list string) :
  JsSet.del x (a ++ b) = (JsSet.del x a ++ JsSet.del x b)%list.
Proof. unfold JsSet.del. apply filter_app. Qed.

Lemma exclude_app_l (a b w : list string) :
  exclude (a ++ b) w = (exclude a w ++ exclude b w)%list.
Proof.
  unfold exclude. revert a b. induction w as [| i w IH]; intros a b; [done |].
  cbn [foldl]. rewrite del_app. apply IH.
Qed.

Lemma exclude_app_r (s w1 w2 : list string) :
  exclude (exclude s w1) w2 = exclude s (w1 ++ w2).
Proof. unfold exclude. by rewrite foldl_app. Qed.

Lemma exclude_nil (w : list string) : exclude [] w = [].
Proof. unfold exclude. by induction w. Qed.

Lemma del_absent (x : string) (s : list string) :
  x ∉ s → JsSet.del x s = s.
Proof.
  intros H. unfold JsSet.del. induction s as [| y s IH]; [done |].
  apply not_elem_of_cons in H as [Hne Hs].
  rewrite filter_cons_True by done. by rewrite IH.
Qed.

Lemma exclude_disjoint (s w : list string) :
  (∀ x, x ∈ s → x ∉ w) → exclude s w = s.
Proof.
  unfold exclude. revert s. induction w as [| i w IH]; intros s H; [done |].
  cbn [foldl]. rewrite del_absent.
  - apply IH. intros x Hx Hw. apply (H x Hx). by right.
  - intros Hi. apply (H i Hi). by left.
Qed.

Lemma exclude_singleton_in (i : string) (w : list string) :
  i ∈ w → exclude [i] w = [].
Proof.
  unfold exclude. induction w as [| j w IH]; intros H.
  - by apply elem_of_nil in H.
  - cbn [foldl]. destruct (decide (i = j)) as [-> | Hne].
    + replace (JsSet.del j [j]) with (@nil string); [apply exclude_nil |].
      unfold JsSet.del. by rewrite filter_cons_False by (intros ?; done).
    + rewrite del_absent
        by (intros Hj; apply list_elem_of_singleton in Hj; congruence).
      apply IH. by apply elem_of_cons in H as [? | ?].
Qed.

(** Adding tokens that are present or excluded anyway does not show after
    the exclusion. *)
Lemma exclude_include (s v w : list string) :
  (∀ x, x ∈ v → x ∈ s ∨ x ∈ w) →
  exclude (include s v) w = exclude s w.
Proof.
  unfold include. revert s. induction v as [| i v IH]; intros s H; [done |].
  cbn [foldl]. rewrite IH.
  - destruct (decide (i ∈ s)) as [Hi | Hi].
    + by rewrite add_present.
    + rewrite add_absent, exclude_app_l by done.
      rewrite exclude_singleton_in, app_nil_r; [done |].
      destruct (H i); [by left | done | done].
  - intros y Hy. rewrite elem_of_add.
    destruct (H y); [by right | auto | auto].
Qed.

(** ** More on the token registry *)

(** The loop of [addClasses]: the pending tokens keep their order and the
    inserted ones follow them. *)
Lemma addClasses_appends (classes : list string) (c : bool) (s : State) :
  let r := foldl addClasses_token (c, s) classes in
  ∃ added,
    classesPending r.2 = (classesPending s ++ added)%list
    ∧ ((r.1 = c ∧ added = []) ∨ (r.1 = true ∧ added ≠ [])).
Proof.
  revert c s. induction classes as [| i classes IH]; intros c s; cbn [foldl].
  - exists []. simpl. rewrite app_nil_r. auto.
  - rewrite addClasses_token_eq. destruct (insertable s i) eqn:Hi.
    + destruct (IH true (with_classes (classesGenerated s)
                           (JsSet.add i (classesPending s)) s))
        as (added & Hp & Hc).
      exists (i :: added). split.
      * rewrite Hp. simpl. apply insertable_true in Hi.
        rewrite add_absent by tauto. by rewrite <- app_assoc.
      * right. split; [| done]. by destruct Hc as [[? _] | [? _]].
    + apply IH.
Qed.

Lemma addClasses_flag (classes : list string) (s : State) :
  (addClasses classes s).1 = false ↔ (addClasses classes s).2 = s.
Proof.
  unfold addClasses.
  destruct (addClasses_appends classes false s) as (added & Hp & Hc).
  destruct (addClasses_loop classes false s) as (Hf & _).
  split.
  - intros Hfalse. destruct Hc as [[_ ->] | [? _]]; [| congruence].
    rewrite Hf, Hp, app_nil_r. apply with_classes_id.
  - intros Heq. destruct Hc as [[? _] | [_ Hne]]; [done |].
    rewrite Heq in Hp. apply (f_equal length) in Hp.
    rewrite length_app in Hp. destruct added; [done | simpl in Hp; lia].
Qed.

(** X2: [addClasses] keeps the pending tokens in their order and puts the
    inserted ones after them; it returns [false] exactly when it leaves the
    state as it was. *)
Theorem addClasses_unchanged_iff (classes : list string) (s : State) :
  let r := addClasses classes s in
  (∃ added, classesPending r.2 = (classesPending s ++ added)%list
            ∧ (r.1 = true ↔ added ≠ []))
  ∧ (r.1 = false ↔ r.2 = s).
Proof.
  split; [| apply addClasses_flag]. unfold addClasses.
  destruct (addClasses_appends classes false s) as (added & Hp & Hc).
  exists added. split; [done |].
  destruct Hc as [[-> ->] | [-> ?]]; [split; done | done].
Qed.

Lemma with_tags_id (s : State) :
  with_tags (tagsGenerated s) (tagsPending s) (tagsAvailable s) s = s.
Proof. by destruct s. Qed.

(** One step of the loop of [addTags]: nothing, or a move of a tag that
    is available, not pending and not blocklisted, and is the given tag or
    its alias. *)
Lemma addTags_tag_step (kebabCase : string → string) (c : bool) (s : State)
    (tag : string) :
  addTags_tag kebabCase (c, s) tag = (c, s)
  ∨ ∃ t, t ∈ tagsAvailable s ∧ (t ∉ tagsPending s)
         ∧ (t ∉ pf_blocklist (preflightOptions (options s)))
         ∧ (t = tag
            ∨ alias (preflightOptions (options s)) !! kebabCase tag = Some t)
         ∧ addTags_tag kebabCase (c, s) tag = (true, moveTag t s).
Proof.
  unfold addTags_tag, resolveTag.
  destruct (JsSet.has (tagsAvailable s) tag) eqn:Hav.
  - destruct (JsSet.has (pf_blocklist _) tag) eqn:Hb; [auto |].
    rewrite Hav. simpl.
    destruct (JsSet.has (tagsPending s) tag) eqn:Hp; [auto |].
    right. exists tag. apply has_true in Hav.
    apply has_false in Hb, Hp. auto 10.
  - destruct (alias _ !! kebabCase tag) as [t |] eqn:Hal; [| auto].
    destruct (JsSet.has (pf_blocklist _) t) eqn:Hb; [auto |].
    destruct (JsSet.has (tagsAvailable s) t) eqn:Ha; [| auto]. simpl.
    destruct (JsSet.has (tagsPending s) t) eqn:Hp; [auto |].
    right. exists t. apply has_true in Ha.
    apply has_false in Hb, Hp. auto 10.
Qed.

(** The loop of [addTags], from any value of [changed]. *)
Lemma addTags_loop (kebabCase : string → string) (tags : list string)
    (c : bool) (s : State) :
  let r := foldl (addTags_tag kebabCase) (c, s) tags in
  ∃ moved,
    r.2 = with_tags (tagsGenerated s) (tagsPending s ++ moved)
            (exclude (tagsAvailable s) moved) s
    ∧ Forall (λ t, t ∈ tagsAvailable s ∧ (t ∉ tagsPending s)
                   ∧ (t ∉ pf_blocklist (preflightOptions (options s)))
                   ∧ ∃ tag, tag ∈ tags
                            ∧ (t = tag
                               ∨ alias (preflightOptions (options s))
                                 !! kebabCase tag = Some t)) moved
    ∧ NoDup moved
    ∧ ((r.1 = c ∧ moved = []) ∨ (r.1 = true ∧ moved ≠ [])).
Proof.
  revert c s. induction tags as [| tag tags IH]; intros c s; cbn [foldl].
  - exists []. simpl. rewrite app_nil_r, with_tags_id.
    split_and!; [done | constructor | constructor | auto].
  - destruct (addTags_tag_step kebabCase c s tag)
      as [-> | (t & Ha & Hp & Hb & Hal & ->)].
    + destruct (IH c s) as (moved & Hr & Hm & Hnd & Hc).
      exists moved. split_and!; try done.
      eapply Forall_impl; [exact Hm |]. simpl.
      intros t (? & ? & ? & tag' & ? & ?). split_and!; try done.
      exists tag'. split; [by right | done].
    + destruct (IH true (moveTag t s)) as (moved & Hr & Hm & Hnd & Hc).
      exists (t :: moved). split_and!.
      * rewrite Hr. simpl. rewrite add_absent by done.
        by rewrite <- app_assoc.
      * constructor.
        -- split_and!; try done. exists tag. split; [by left | done].
        -- eapply Forall_impl; [exact Hm |]. simpl.
           intros t' (Ha' & Hp' & Hb' & tag' & ? & ?).
           apply elem_of_del in Ha' as [Ha' _].
           rewrite elem_of_add in Hp'. split_and!; try tauto.
           exists tag'. split; [by right | done].
      * constructor; [| done]. intros Hin.
        rewrite Forall_forall in Hm. destruct (Hm t Hin) as (Ha' & _).
        simpl in Ha'. apply elem_of_del in Ha' as [_ ?]. done.
      * right. split; [| done]. by destruct Hc as [[? _] | [? _]].
Qed.

Lemma addTags_flag (kebabCase : string → string) (tags : list string)
    (s : State) :
  (addTags kebabCase tags s).1 = false ↔ (addTags kebabCase tags s).2 = s.
Proof.
  unfold addTags.
  destruct (addTags_loop kebabCase tags false s)
    as (moved & Hr & _ & _ & Hc).
  split.
  - intros Hfalse. destruct Hc as [[_ ->] | [? _]]; [| congruence].
    rewrite Hr, app_nil_r. apply with_tags_id.
  - intros Heq. destruct Hc as [[? _] | [_ Hne]]; [done |].
    rewrite Heq in Hr. apply (f_equal tagsPending) in Hr. simpl in Hr.
    apply (f_equal length) in Hr. rewrite length_app in Hr.
    destruct moved; [done | simpl in Hr; lia].
Qed.

(** X1: [addTags] keeps the pending tags in their order and puts after
    them the tags it moves; each moved tag was available, was not pending,
    is not on the preflight blocklist, is one of the given tags or the alias
    of one, and leaves [tagsAvailable]; nothing else changes, and the call
    returns [false] exactly when it leaves the state as it was. *)
Theorem addTags_moves (kebabCase : string → string) (tags : list string)
    (s : State) :
  let r := addTags kebabCase tags s in
  let pf := preflightOptions (options s) in
  (∃ moved,
     r.2 = with_tags (tagsGenerated s) (tagsPending s ++ moved)
             (exclude (tagsAvailable s) moved) s
     ∧ NoDup moved
     ∧ (∀ t, t ∈ moved →
             t ∈ tagsAvailable s ∧ (t ∉ tagsPending s)
             ∧ (t ∉ pf_blocklist pf)
             ∧ (t ∉ tagsAvailable r.2)
             ∧ ∃ tag, tag ∈ tags
                      ∧ (t = tag ∨ alias pf !! kebabCase tag = Some t))
     ∧ (∀ t, t ∈ tagsAvailable r.2 ↔ t ∈ tagsAvailable s ∧ (t ∉ moved))
     ∧ (r.1 = true ↔ moved ≠ []))
  ∧ (r.1 = false ↔ r.2 = s).
Proof.
  split; [| apply addTags_flag]. unfold addTags.
  destruct (addTags_loop kebabCase tags false s)
    as (moved & Hr & Hm & Hnd & Hc).
  exists moved. rewrite Forall_forall in Hm.
  assert (∀ t, t ∈ tagsAvailable
                     (foldl (addTags_tag kebabCase) (false, s) tags).2
               ↔ t ∈ tagsAvailable s ∧ (t ∉ moved)) as Hav.
  { intros t. rewrite Hr. simpl. apply elem_of_exclude. }
  split_and!; try done.
  - intros t Ht. destruct (Hm t Ht) as (? & ? & ? & ?).
    split_and!; try done. rewrite Hav. tauto.
  - destruct Hc as [[-> ->] | [-> ?]]; [split; done | done].
Qed.

Lemma addClasses_keeps_tags (classes : list string) (s : State) :
  let s' := (addClasses classes s).2 in
  s' = with_classes (classesGenerated s) (classesPending s') s.
Proof.
  unfold addClasses. by destruct (addClasses_loop classes false s) as (? & _).
Qed.

Lemma addTags_keeps_classes (kebabCase : string → string)
    (tags : list string) (s : State) :
  let s' := (addTags kebabCase tags s).2 in
  s' = with_tags (tagsGenerated s) (tagsPending s') (tagsAvailable s') s.
Proof.
  unfold addTags.
  destruct (addTags_loop kebabCase tags false s) as (moved & Hr & _).
  rewrite Hr at 1. by rewrite Hr.
Qed.

(** ** Extraction *)

Section Extraction.

Variable kebabCase : string → string.
Variable transformGroups : string → string.
Variable x : HostOptions.

Lemma applyTransformers_none (ts : list (string → string → option string))
    (code id : string) :
  Forall (λ trans, trans code id = None) ts →
  applyTransformers ts code id = code.
Proof.
  unfold applyTransformers. induction ts as [| t ts IH]; intros H; [done |].
  apply Forall_cons in H as [Ht Hts]. cbn [foldl]. rewrite Ht. by apply IH.
Qed.

(** X4: the text [extractFile] gives to the extractors.  With no [id], or
    the empty one, no transformer runs; a transformer that answers [null]
    keeps the text, so when all do the text is the (group-transformed)
    input; and each transformer reads the text the ones before it left. *)
Theorem extractFile_begin_transformers (code : string)
    (applyGroupTransform : bool) :
  let grouped :=
    if applyGroupTransform && opt_transformGroups x
    then transformGroups code else code in
  extractFile_begin transformGroups x code None applyGroupTransform = grouped
  ∧ extractFile_begin transformGroups x code (Some "") applyGroupTransform
    = grouped
  ∧ (∀ id, id ≠ "" →
           extractFile_begin transformGroups x code (Some id)
             applyGroupTransform
           = applyTransformers (scan_transformers x) grouped id)
  ∧ (∀ id, Forall (λ trans, trans grouped id = None) (scan_transformers x) →
           extractFile_begin transformGroups x code (Some id)
             applyGroupTransform = grouped)
  ∧ (∀ ts trans text id,
       applyTransformers (ts ++ [trans]) text id
       = default (applyTransformers ts text id)
           (trans (applyTransformers ts text id) id)).
Proof.
  intros grouped. unfold extractFile_begin.
  assert ((if applyGroupTransform
           then if opt_transformGroups x then transformGroups code else code
           else code) = grouped) as ->.
  { subst grouped. by destruct applyGroupTransform. }
  split_and!; try done.
  - intros id Hid. by rewrite bool_decide_false.
  - intros id H. case_bool_decide; [done |].
    by apply applyTransformers_none.
  - intros ts trans text id. unfold applyTransformers.
    rewrite foldl_app. cbn [foldl]. by destruct (trans _ id).
Qed.

(** X3: [extractFile], resumed with the answer of the extractors, returns
    [false] exactly when it leaves the state as it was; with preflight off
    and [includeAll] set it does not look at the tags. *)
Theorem extractFile_resume_unchanged_iff (classes tags : option (list string))
    (s : State) :
  let r := extractFile_resume kebabCase classes tags s in
  (r.1 = false ↔ r.2 = s)
  ∧ (enablePreflight (options s) = false →
     includeAll (preflightOptions (options s)) = true →
     r.1 = (addClasses (default [] classes) s).1
     ∧ r.2 = (addClasses (default [] classes) s).2).
Proof.
  unfold extractFile_resume.
  pose proof (addClasses_flag (default [] classes) s) as H1.
  pose proof (addClasses_keeps_tags (default [] classes) s) as Hf1.
  destruct (addClasses (default [] classes) s) as [c1 s1].
  cbn [fst snd] in *.
  assert (options s1 = options s) as -> by (by rewrite Hf1).
  destruct (enablePreflight (options s) || negb (includeAll _)) eqn:Hcond.
  - pose proof (addTags_flag kebabCase (default [] tags) s1) as H2.
    pose proof (addTags_keeps_classes kebabCase (default [] tags) s1) as Hf2.
    destruct (addTags kebabCase (default [] tags) s1) as [c2 s2].
    cbn [fst snd] in *. rewrite orb_false_r. split.
    + rewrite orb_false_iff, H1, H2. split.
      * intros [-> ->]. done.
      * intros Heq.
        assert (classesPending s1 = classesPending s) as Hcp
          by (rewrite <- Heq, Hf2; done).
        assert (s1 = s) as Hs1
          by (rewrite Hf1, Hcp; apply with_classes_id).
        split; congruence.
    + intros Hpre Hall. by rewrite Hpre, Hall in Hcond.
  - cbn [fst snd]. rewrite orb_false_r. split; [done | by intros _ _].
Qed.

End Extraction.

(** ** More on [clearCache] *)

Section Reload.

Variable htmlTags : list string.
Variable preflightTags : list string.
Variable buildSheet : bool → bool → list Style → string.

Lemma clearCache_eq (clearAll : bool) (s : State) :
  clearCache htmlTags preflightTags clearAll s
  = mkState (options s) (processor s) None (files s) []
      (include
         (if clearAll then []
          else include (classesPending s) (classesGenerated s))
         (safelist (options s)))
      []
      (include
         (if clearAll then []
          else include (include (tagsPending s) (tagsGenerated s))
                 preflightTags)
         (pf_safelist (preflightOptions (options s))))
      []
      (exclude
         (exclude
            (if clearAll then [] else include (tagsAvailable s) htmlTags)
            preflightTags)
         (pf_safelist (preflightOptions (options s))))
      (mkLayers emptyMeta emptyMeta emptyMeta) (layerStylesMap s)
      (_promise_init s) (promises s) (trace s).
Proof. by destruct clearAll. Qed.

(** X5: [clearCache] called twice in a row, in the same mode, leaves
    the state the first call left. *)
Theorem clearCache_idempotent (clearAll : bool) (s : State) :
  clearCache htmlTags preflightTags clearAll
    (clearCache htmlTags preflightTags clearAll s)
  = clearCache htmlTags preflightTags clearAll s.
Proof.
  rewrite (clearCache_eq clearAll (clearCache htmlTags preflightTags clearAll s)).
  rewrite !(clearCache_eq clearAll s). cbn [options processor files
    classesGenerated classesPending tagsGenerated tagsPending tagsAvailable
    layerStylesMap _promise_init promises trace].
  destruct clearAll; [done |].
  set (pf := preflightOptions (options s)).
  f_equal.
  - cbn [include foldl]. apply include_absorb.
    intros y Hy. rewrite elem_of_include. by right.
  - cbn [include foldl].
    rewrite (include_absorb _ preflightTags).
    + apply include_absorb. intros y Hy. rewrite elem_of_include. by right.
    + intros y Hy. rewrite !elem_of_include. tauto.
  - rewrite !exclude_app_r. rewrite exclude_include.
    + apply exclude_disjoint. intros y. rewrite elem_of_exclude. tauto.
    + intros y Hy. rewrite elem_of_exclude, elem_of_include.
      destruct (decide (y ∈ (preflightTags ++ pf_safelist pf)%list)); tauto.
Qed.

(** X6: a full [clearCache] leaves pending exactly the safelists, nothing
    available and nothing generated: the generated tokens are dropped, not
    queued again; the stored contributions stay. *)
Theorem clearCache_full (s : State) :
  let s' := clearCache htmlTags preflightTags true s in
  (∀ t, t ∈ classesPending s' ↔ t ∈ safelist (options s))
  ∧ (∀ t, t ∈ tagsPending s'
          ↔ t ∈ pf_safelist (preflightOptions (options s)))
  ∧ tagsAvailable s' = []
  ∧ classesGenerated s' = [] ∧ tagsGenerated s' = []
  ∧ (∀ name, layer_get (layers s') name = mkLayerMeta None None)
  ∧ hasPending s'
    = negb (bool_decide (safelist (options s) = [])
            && bool_decide (pf_safelist (preflightOptions (options s)) = []))
  ∧ layerStylesMap s' = layerStylesMap s.
Proof.
  intros s'. subst s'. rewrite (clearCache_eq true s).
  cbn [classesPending tagsPending tagsAvailable classesGenerated
       tagsGenerated layers layerStylesMap].
  rewrite !exclude_nil.
  assert (∀ v : list string, include [] v = [] ↔ v = []) as Hnil.
  { intros v. split; [| by intros ->].
    destruct v as [| i v]; [done |]. intros H.
    assert (i ∈ include [] (i :: v)) as Hi
      by (apply elem_of_include; right; by left).
    rewrite H in Hi. by apply elem_of_nil in Hi. }
  split_and!; try done.
  - intros t. rewrite elem_of_include, elem_of_nil. tauto.
  - intros t. rewrite elem_of_include, elem_of_nil. tauto.
  - intros name. by destruct name.
  - unfold hasPending, JsSet.size. cbn [classesPending tagsPending].
    rewrite negb_andb, orb_comm. f_equal; f_equal; apply bool_decide_ext;
      rewrite length_zero_iff_nil; apply Hnil.
Qed.

(** X7: [clearCache], in either mode, drops every cached text and keeps
    the stored contributions, so the next [buildLayerCss] of any layer
    builds its sheet again, once, from the nodes stored before. *)
Theorem clearCache_then_build (clearAll : bool) (name : LayerName)
    (s : State) :
  let s1 := clearCache htmlTags preflightTags clearAll s in
  let r := buildLayerCss buildSheet name s1 in
  layerChildren name s1 = layerChildren name s
  ∧ r.1 = layerText buildSheet name s
  ∧ buildCount name (trace r.2) = S (buildCount name (trace s))
  ∧ cssCache (layer_get (layers r.2) name) = Some r.1.
Proof.
  intros s1 r.
  destruct (clearCache_rest htmlTags preflightTags clearAll s)
    as (Hl & _ & _ & Hm & Ho & _ & _ & _ & _ & Ht).
  fold s1 in Hl, Hm, Ho, Ht.
  assert (cssCache (layer_get (layers s1) name) = None) as Hnone
    by (rewrite Hl; by destruct name).
  destruct (buildLayerCss_dirty buildSheet name s1 Hnone)
    as (Hcss & Htr & Hl' & _).
  fold r in Hcss, Htr, Hl'.
  assert (layerChildren name s1 = layerChildren name s) as Hch
    by (unfold layerChildren; by rewrite Hm).
  split_and!.
  - done.
  - rewrite Hcss. unfold layerText. by rewrite Ho, Hch.
  - rewrite Htr, buildCount_snoc, Ht. simpl.
    rewrite bool_decide_true by done. lia.
  - by rewrite Hl', layer_get_set, decide_True, Hcss.
Qed.

End Reload.

(** ** More on the compiler bridge *)

Lemma buildPendingStyles_unfold (now1 now2 : Z) (s : State) :
  buildPendingStyles now1 now2 s
  = (s1 ← compileClasses now1 (beforeGenerate s);
     s2 ← compileTags now2 s1;
     Some (afterGenerate s2)).
Proof. reflexivity. Qed.

(** The hooks only leave their events. *)
Lemma beforeGenerate_emit (s : State) :
  ∃ es, beforeGenerate s
        = mkState (options s) (processor s) (completions s) (files s)
            (classesGenerated s) (classesPending s) (tagsGenerated s)
            (tagsPending s) (attrsGenerated s) (tagsAvailable s)
            (layers s) (layerStylesMap s) (_promise_init s)
            (promises s) (trace s ++ es).
Proof.
  unfold beforeGenerate. destruct (has_onBeforeGenerate _).
  - by eexists [_].
  - exists []. rewrite app_nil_r. by destruct s.
Qed.

Lemma afterGenerate_emit (s : State) :
  ∃ es, afterGenerate s
        = mkState (options s) (processor s) (completions s) (files s)
            (classesGenerated s) (classesPending s) (tagsGenerated s)
            (tagsPending s) (attrsGenerated s) (tagsAvailable s)
            (layers s) (layerStylesMap s) (_promise_init s)
            (promises s) (trace s ++ es).
Proof.
  unfold afterGenerate. destruct (has_onGenerated _).
  - by eexists [_].
  - exists []. rewrite app_nil_r. by destruct s.
Qed.

(** The class block leaves the tag registry, the options, the processor,
    the completions and the contribution of the preflights alone; with a
    processor it does not throw. *)
Lemma compileClasses_frame (now : Z) (s s' : State) :
  compileClasses now s = Some s' →
  tagsPending s' = tagsPending s
  ∧ tagsGenerated s' = tagsGenerated s
  ∧ tagsAvailable s' = tagsAvailable s
  ∧ options s' = options s
  ∧ processor s' = processor s
  ∧ completions s' = completions s
  ∧ JsMap.get (layerStylesMap s') "__preflights"
    = JsMap.get (layerStylesMap s) "__preflights".
Proof.
  unfold compileClasses. destruct (bool_decide (JsSet.size _ = 0));
    [by intros [= <-] |].
  destruct (processor s) as [p |] eqn:Hp; [| done]. simpl.
  destruct (bool_decide (length (success _) = 0)); intros [= <-];
    [done |].
  split_and!; try done. simpl. by rewrite get_set_ne.
Qed.

Lemma compileClasses_total (now : Z) (s : State) (p : Processor) :
  processor s = Some p → is_Some (compileClasses now s).
Proof.
  intros Hp. unfold compileClasses. rewrite Hp.
  destruct (bool_decide (JsSet.size _ = 0)); [done |]. simpl.
  by destruct (bool_decide (length (success _) = 0)).
Qed.

Lemma compileClasses_idle (now : Z) (s : State) :
  classesPending s = [] → compileClasses now s = Some s.
Proof. intros H. unfold compileClasses. by rewrite H. Qed.

Lemma compileTags_idle (now : Z) (s : State) :
  enablePreflight (options s) = false
  ∨ (includeAll (preflightOptions (options s)) = false ∧ tagsPending s = []) →
  compileTags now s = Some s.
Proof.
  unfold compileTags. intros [-> | [-> ->]]; [done |].
  by destruct (enablePreflight (options s)).
Qed.

(** The preflight block when it runs. *)
Lemma compileTags_eq (now : Z) (s : State) (p : Processor) :
  processor s = Some p →
  enablePreflight (options s) = true →
  includeAll (preflightOptions (options s)) = true ∨ tagsPending s ≠ [] →
  let pf := preflightOptions (options s) in
  let html := if includeAll pf then None
              else Some (tagMarkup (tagsPending s)) in
  let children :=
    preflight p html (includeBase pf) (includeGlobal pf) (includePlugin pf) in
  compileTags now s
  = Some (with_tags (include (tagsGenerated s) (tagsPending s)) []
            (tagsAvailable s)
            (updateLayers now children "__preflights" false
               (emit (EvPreflight html (includeBase pf) (includeGlobal pf)
                        (includePlugin pf)) s))).
Proof.
  intros Hp Hpre Hrun. unfold compileTags. rewrite Hpre, Hp.
  assert (includeAll (preflightOptions (options s))
          || negb (bool_decide (JsSet.size (tagsPending s) = 0)) = true) as ->.
  { destruct Hrun as [-> | Hne]; [done |].
    rewrite size_nonempty by done. apply orb_true_r. }
  reflexivity.
Qed.

(** [buildPendingStyles] when its preflight block runs. *)
Lemma buildPendingStyles_preflight (now1 now2 : Z) (s : State)
    (p : Processor) :
  processor s = Some p →
  enablePreflight (options s) = true →
  includeAll (preflightOptions (options s)) = true ∨ tagsPending s ≠ [] →
  let pf := preflightOptions (options s) in
  let html := if includeAll pf then None
              else Some (tagMarkup (tagsPending s)) in
  let children :=
    preflight p html (includeBase pf) (includeGlobal pf) (includePlugin pf) in
  ∃ s', buildPendingStyles now1 now2 s = Some s'
        ∧ processor s' = Some p
        ∧ options s' = options s
        ∧ tagsPending s' = []
        ∧ tagsGenerated s' = include (tagsGenerated s) (tagsPending s)
        ∧ tagsAvailable s' = tagsAvailable s
        ∧ JsMap.get (layerStylesMap s') "__preflights"
          = Some (default [] (JsMap.get (layerStylesMap s) "__preflights")
                  ++ children)%list
        ∧ (∀ name, layer_string name ∈ map meta_type children →
                   layer_get (layers s') name = mkLayerMeta None (Some now2)).
Proof.
  intros Hp Hpre Hrun pf html children.
  rewrite buildPendingStyles_unfold.
  destruct (beforeGenerate_emit s) as (es0 & H0).
  set (s0 := beforeGenerate s) in *.
  assert (processor s0 = Some p) as Hp0 by (by rewrite H0).
  destruct (compileClasses_total now1 s0 p Hp0) as [s1 H1].
  destruct (compileClasses_frame now1 s0 s1 H1)
    as (Htp & Htg & Hta & Ho & Hpr & _ & Hm).
  rewrite H0 in Htp, Htg, Hta, Ho, Hpr, Hm.
  cbn [tagsPending tagsGenerated tagsAvailable options processor
       layerStylesMap] in Htp, Htg, Hta, Ho, Hpr, Hm.
  rewrite H1. cbn [mbind option_bind].
  rewrite (compileTags_eq now2 s1 p); [| congruence | congruence |];
    [| by rewrite Ho, Htp].
  cbn [mbind option_bind]. rewrite Ho, Htp, Htg, Hta.
  fold pf html children.
  match goal with |- context [afterGenerate ?t] => set (s2 := t) end.
  destruct (afterGenerate_emit s2) as (es2 & H2).
  exists (afterGenerate s2). split; [done |]. rewrite H2.
  cbn [processor options tagsPending tagsGenerated tagsAvailable
       layerStylesMap layers].
  assert (processor s2 = Some p ∧ options s2 = options s) as [? ?].
  { subst s2.
    rewrite (updateLayers_frame now2 children "__preflights" false _).
    simpl. split; congruence. }
  split_and!; try done.
  - subst s2. cbn [layerStylesMap with_tags].
    rewrite updateLayers_map, get_set_eq. cbn [layerStylesMap emit].
    by rewrite Hm.
  - intros name Hn. subst s2.
    cbn [layers with_tags]. rewrite updateLayers_layer.
    assert (JsSet.has
              (touchedLayers children "__preflights" false
                 (emit (EvPreflight html (includeBase pf) (includeGlobal pf)
                          (includePlugin pf)) s1)) (layer_string name)
            = true) as ->; [| done].
    apply touchedLayers_has. by left.
Qed.

(** X9: with preflight on, [includeAll] off, a processor and tags
    pending, [buildPendingStyles] asks for the preflight of exactly the
    pending tags, written as markup, stores its nodes after those already
    under the key of the preflights, adds the tags to [tagsGenerated] and
    empties [tagsPending]; classes that are pending as well do not change
    this. *)
Theorem preflight_compiles_pending_tags (now1 now2 : Z) (s : State)
    (p : Processor) :
  processor s = Some p →
  enablePreflight (options s) = true →
  includeAll (preflightOptions (options s)) = false →
  tagsPending s ≠ [] →
  let pf := preflightOptions (options s) in
  let children :=
    preflight p (Some (tagMarkup (tagsPending s))) (includeBase pf)
      (includeGlobal pf) (includePlugin pf) in
  ∃ s', buildPendingStyles now1 now2 s = Some s'
        ∧ tagsPending s' = []
        ∧ (∀ t, t ∈ tagsGenerated s'
                ↔ t ∈ tagsGenerated s ∨ t ∈ tagsPending s)
        ∧ tagsAvailable s' = tagsAvailable s
        ∧ JsMap.get (layerStylesMap s') "__preflights"
          = Some (default [] (JsMap.get (layerStylesMap s) "__preflights")
                  ++ children)%list
        ∧ hasPending s' = negb (bool_decide (classesPending s' = [])).
Proof.
  intros Hp Hpre Hall Hne pf children.
  destruct (buildPendingStyles_preflight now1 now2 s p Hp Hpre (or_intror Hne))
    as (s' & Hb & _ & _ & Htp & Htg & Hta & Hm & _).
  rewrite Hall in Hm. exists s'.
  split_and!; try done.
  - intros t. by rewrite Htg, elem_of_include.
  - unfold hasPending, JsSet.size. rewrite Htp. simpl. f_equal.
    apply bool_decide_ext. apply length_zero_iff_nil.
Qed.

(** X10: with preflight on and [includeAll] set, every call of
    [buildPendingStyles] asks for the whole preflight, stores its nodes
    again after those already stored, and drops the cached text of their
    layers, whether or not anything is pending. *)
Theorem includeAll_appends_every_call (now1 now2 : Z) (s : State)
    (p : Processor) :
  processor s = Some p →
  enablePreflight (options s) = true →
  includeAll (preflightOptions (options s)) = true →
  let pf := preflightOptions (options s) in
  let children :=
    preflight p None (includeBase pf) (includeGlobal pf) (includePlugin pf) in
  let stored := default [] (JsMap.get (layerStylesMap s) "__preflights") in
  ∃ s1, buildPendingStyles now1 now2 s = Some s1
        ∧ JsMap.get (layerStylesMap s1) "__preflights"
          = Some (stored ++ children)%list
        ∧ (∀ name, layer_string name ∈ map meta_type children →
                   cssCache (layer_get (layers s1) name) = None)
        ∧ ∀ now3 now4,
            ∃ s2, buildPendingStyles now3 now4 s1 = Some s2
                  ∧ JsMap.get (layerStylesMap s2) "__preflights"
                    = Some ((stored ++ children) ++ children)%list.
Proof.
  intros Hp Hpre Hall pf children stored.
  destruct (buildPendingStyles_preflight now1 now2 s p Hp Hpre (or_introl Hall))
    as (s1 & Hb & Hp1 & Ho1 & _ & _ & _ & Hm & Hl).
  rewrite Hall in Hm, Hl. exists s1. split_and!; try done.
  - intros name Hn. by rewrite (Hl name Hn).
  - intros now3 now4.
    destruct (buildPendingStyles_preflight now3 now4 s1 p Hp1)
      as (s2 & Hb2 & _ & _ & _ & _ & _ & Hm2 & _).
    + by rewrite Ho1.
    + left. by rewrite Ho1.
    + rewrite Ho1, Hall, Hm in Hm2. by exists s2.
Qed.

(** X11: with no class pending and the preflight block idle (preflight
    off, or [includeAll] off and no tag pending), [buildPendingStyles] calls
    neither [interpret] nor [preflight], needs no processor, and leaves
    only the events of the hooks that are set. *)
Theorem buildPendingStyles_idle (now1 now2 : Z) (s : State) :
  nothingToCompile s →
  buildPendingStyles now1 now2 s = Some (afterGenerate (beforeGenerate s))
  ∧ ∃ es, afterGenerate (beforeGenerate s)
          = mkState (options s) (processor s) (completions s) (files s)
              (classesGenerated s) (classesPending s) (tagsGenerated s)
              (tagsPending s) (attrsGenerated s) (tagsAvailable s)
              (layers s) (layerStylesMap s) (_promise_init s)
              (promises s) (trace s ++ es)
          ∧ Forall (λ e, match e with
                         | EvOnBeforeGenerate _ _ | EvOnGenerated _ _ => True
                         | _ => False
                         end) es.
Proof.
  intros (Hc & Ht). rewrite buildPendingStyles_unfold. split.
  - assert (classesPending (beforeGenerate s) = []) as Hc0
      by (unfold beforeGenerate; by destruct (has_onBeforeGenerate _)).
    rewrite (compileClasses_idle _ _ Hc0). cbn [mbind option_bind].
    rewrite compileTags_idle; [done |].
    unfold beforeGenerate. by destruct (has_onBeforeGenerate _).
  - unfold afterGenerate, beforeGenerate.
    destruct (has_onBeforeGenerate (options s)) eqn:Hb;
      cbn [options emit]; destruct (has_onGenerated (options s)) eqn:Hg.
    + exists [EvOnBeforeGenerate (classesPending s) (tagsPending s);
              EvOnGenerated (classesGenerated s) (tagsGenerated s)].
      split; [| by repeat constructor].
      unfold emit. cbn [options processor completions files classesGenerated
        classesPending tagsGenerated tagsPending attrsGenerated tagsAvailable
        layers layerStylesMap _promise_init promises trace].
      by rewrite <- app_assoc.
    + exists [EvOnBeforeGenerate (classesPending s) (tagsPending s)].
      split; [done | by repeat constructor].
    + exists [EvOnGenerated (classesGenerated s) (tagsGenerated s)].
      split; [done | by repeat constructor].
    + exists []. split; [| constructor].
      rewrite app_nil_r. by destruct s.
Qed.

Lemma get_Some_elem {V} (m : list (string * V)) (k : string) (v : V) :
  JsMap.get m k = Some v → (k, v) ∈ m.
Proof.
  induction m as [| [k' v'] m IH]; simpl; [done |].
  destruct (decide (k' = k)) as [-> | Hne].
  - intros [= ->]. by left.
  - intros H. right. by apply IH.
Qed.

(** [buildPendingStyles] when its class block compiles something. *)
Lemma buildPendingStyles_classes (now1 now2 : Z) (s : State) (p : Processor) :
  processor s = Some p →
  classesPending s ≠ [] →
  let result := interpret p (String.concat " " (classesPending s)) in
  success result ≠ [] →
  ∃ s', buildPendingStyles now1 now2 s = Some s'
        ∧ classesPending s' = []
        ∧ classesGenerated s'
          = include (classesGenerated s) (success result)
        ∧ JsMap.get (layerStylesMap s') "__classes"
          = Some (default [] (JsMap.get (layerStylesMap s) "__classes")
                  ++ styleSheet_children result)%list.
Proof.
  intros Hp Hne result Hs.
  destruct (buildPendingStyles_eq now1 now2 s)
    as (s0 & Hp0 & Hg0 & Hm0 & _ & _ & Hpr0 & Hrun).
  rewrite <- Hpr0 in Hp. rewrite <- Hp0 in Hne.
  pose proof (compileClasses_eq now1 s0 p Hp Hne) as Hc. simpl in Hc.
  rewrite Hp0 in Hc. fold result in Hc.
  rewrite bool_decide_false in Hc by (by destruct (success result)).
  match type of Hc with _ = Some ?t => set (s1 := t) in * end.
  assert (processor s1 = Some p) as Hp1 by (by subst s1).
  destruct (compileTags_total now2 s1 p Hp1) as [s2 H2].
  destruct (Hrun _ _ Hc H2) as (s3 & Hb & Hp3 & Hg3 & Hm3 & _).
  destruct (compileTags_classes _ _ _ H2) as (Hp2 & Hg2 & Hm2 & _).
  exists s3. split_and!; [done | | |].
  - by rewrite Hp3, Hp2.
  - rewrite Hg3, Hg2. simpl. by rewrite Hg0.
  - rewrite Hm3, Hm2. simpl. by rewrite get_set_eq, Hm0.
Qed.

Section ReloadCompile.

Variable htmlTags : list string.
Variable preflightTags : list string.

(** X8: after [clearCache(false)] the classes generated before are
    pending again while their nodes stay stored, so when
    [buildPendingStyles] compiles them the new nodes are stored after the
    old ones, which the layers still show. *)
Theorem reload_stores_after_old_nodes (now1 now2 : Z) (s : State)
    (p : Processor) :
  processor s = Some p →
  let s1 := clearCache htmlTags preflightTags false s in
  classesPending s1 ≠ [] →
  let result := interpret p (String.concat " " (classesPending s1)) in
  success result ≠ [] →
  let old := default [] (JsMap.get (layerStylesMap s) "__classes") in
  (∀ t, t ∈ classesGenerated s → t ∈ classesPending s1)
  ∧ ∃ s2, buildPendingStyles now1 now2 s1 = Some s2
          ∧ JsMap.get (layerStylesMap s2) "__classes"
            = Some (old ++ styleSheet_children result)%list
          ∧ (∀ name i, i ∈ old → meta_type i = layer_string name →
                       i ∈ layerChildren name s2).
Proof.
  intros Hp s1 Hne result Hs old.
  destruct (clearCache_classes htmlTags preflightTags false s) as (_ & Hcp).
  destruct (clearCache_rest htmlTags preflightTags false s)
    as (_ & _ & _ & Hm & _ & Hpr & _).
  fold s1 in Hcp, Hm, Hpr. split.
  - intros t Ht. rewrite Hcp, !elem_of_include. tauto.
  - destruct (buildPendingStyles_classes now1 now2 s1 p) as
      (s2 & Hb & _ & _ & Hget); [congruence | done | done |].
    rewrite Hm in Hget. exists s2. split_and!; [done | done |].
    intros name i Hi Ht. apply elem_of_layerChildren. split; [done |].
    exists "__classes", (old ++ styleSheet_children result)%list.
    split; [by apply get_Some_elem |]. apply elem_of_app. by left.
Qed.

End ReloadCompile.

(** X12: with preflight off, [buildPendingStyles] never touches the tag
    registry, so a pending tag stays pending and [hasPending] stays set
    whatever is compiled. *)
Theorem preflight_off_keeps_tags (now1 now2 : Z) (s s' : State) :
  enablePreflight (options s) = false →
  buildPendingStyles now1 now2 s = Some s' →
  tagsPending s' = tagsPending s
  ∧ tagsGenerated s' = tagsGenerated s
  ∧ tagsAvailable s' = tagsAvailable s
  ∧ JsMap.get (layerStylesMap s') "__preflights"
    = JsMap.get (layerStylesMap s) "__preflights"
  ∧ (tagsPending s ≠ [] → hasPending s' = true).
Proof.
  intros Hpre. rewrite buildPendingStyles_unfold. intros Hb.
  apply bind_Some in Hb as (s1 & H1 & Hb).
  apply bind_Some in Hb as (s2 & H2 & [= <-]).
  destruct (beforeGenerate_emit s) as (es0 & H0).
  destruct (compileClasses_frame _ _ _ H1) as (Htp & Htg & Hta & Ho & _ & _ & Hm).
  rewrite H0 in Htp, Htg, Hta, Ho, Hm.
  cbn [tagsPending tagsGenerated tagsAvailable options layerStylesMap]
    in Htp, Htg, Hta, Ho, Hm.
  rewrite compileTags_idle in H2 by (left; congruence).
  injection H2 as <-.
  destruct (afterGenerate_emit s1) as (es1 & ->).
  unfold hasPending, JsSet.size.
  cbn [tagsPending tagsGenerated tagsAvailable layerStylesMap classesPending].
  split_and!; try done.
  intros Hne. rewrite Htp. by destruct (tagsPending s).
Qed.

(** ** More on the layer texts *)

Lemma layer_set_get (name : LayerName) (ls : Layers) :
  layer_set name (layer_get ls name) ls = ls.
Proof. by destruct name, ls. Qed.

Lemma buildCount_hooks (name : LayerName) (t es : list Event) :
  Forall (λ e, isBuildOf name e = false) es →
  buildCount name (t ++ es) = buildCount name t.
Proof.
  intros H. unfold buildCount. rewrite filter_app, length_app.
  replace (filter (λ e, isBuildOf name e = true) es) with (@nil Event);
    [simpl; lia |].
  induction H as [| e es He _ IH]; [done |].
  rewrite filter_cons_False by (by rewrite He). done.
Qed.

Section Texts.

Variable buildSheet : bool → bool → list Style → string.
Variable trim : string → string.

(** What [buildLayerCss] returns and leaves: the text it returns is cached
    for the layer, with the timestamp the layer had; the trace gets the
    build of the sheet, or nothing when a text was cached. *)
Lemma buildLayerCss_shape (name : LayerName) (s : State) :
  let r := buildLayerCss buildSheet name s in
  ∃ es,
    r.2 = mkState (options s) (processor s) (completions s) (files s)
            (classesGenerated s) (classesPending s) (tagsGenerated s)
            (tagsPending s) (attrsGenerated s) (tagsAvailable s)
            (layer_set name
               (mkLayerMeta (Some r.1) (timestamp (layer_get (layers s) name)))
               (layers s))
            (layerStylesMap s) (_promise_init s) (promises s)
            (trace s ++ es)
    ∧ ((es = [] ∧ cssCache (layer_get (layers s) name) = Some r.1)
       ∨ (es = [EvBuildSheet name
                  (default true (config_prefixer (options s)))
                  (sortUtilities (options s)) (layerChildren name s)]
          ∧ cssCache (layer_get (layers s) name) = None
          ∧ r.1 = layerText buildSheet name s)).
Proof.
  unfold buildLayerCss.
  destruct (cssCache (layer_get (layers s) name)) as [css |] eqn:E.
  - exists []. cbn [fst snd]. split; [| by left].
    rewrite app_nil_r. rewrite <- E.
    replace (mkLayerMeta (cssCache (layer_get (layers s) name))
               (timestamp (layer_get (layers s) name)))
      with (layer_get (layers s) name)
      by (by destruct (layer_get (layers s) name)).
    rewrite layer_set_get. by destruct s.
  - eexists. cbn [fst snd]. split; [reflexivity |]. by right.
Qed.

(** X13: [buildLayerCss] touches nothing but the cached text of its
    layer: every timestamp, the text of every other layer, the stored
    contributions and the token registry are as before, and the text it
    returns is the one cached afterwards. *)
Theorem buildLayerCss_only_caches (name : LayerName) (s : State) :
  let r := buildLayerCss buildSheet name s in
  cssCache (layer_get (layers r.2) name) = Some r.1
  ∧ (∀ n, timestamp (layer_get (layers r.2) n)
          = timestamp (layer_get (layers s) n))
  ∧ (∀ n, n ≠ name → layer_get (layers r.2) n = layer_get (layers s) n)
  ∧ layerStylesMap r.2 = layerStylesMap s
  ∧ options r.2 = options s
  ∧ (classesGenerated r.2, classesPending r.2, tagsGenerated r.2,
     tagsPending r.2, tagsAvailable r.2)
    = (classesGenerated s, classesPending s, tagsGenerated s,
       tagsPending s, tagsAvailable s)
  ∧ (∀ n, buildCount n (trace r.2)
          = buildCount n (trace s)
            + (if bool_decide (n = name ∧ cssCache (layer_get (layers s) name)
                                          = None)
               then 1 else 0)).
Proof.
  intros r. destruct (buildLayerCss_shape name s) as (es & Hr & Hes).
  fold r in Hr, Hes. rewrite Hr.
  cbn [layers layerStylesMap options classesGenerated classesPending
       tagsGenerated tagsPending tagsAvailable trace].
  split_and!; try done.
  - by rewrite layer_get_set, decide_True.
  - intros n. rewrite layer_get_set. by destruct (decide (name = n)) as [-> |].
  - intros n Hn. by rewrite layer_get_set, decide_False.
  - intros n. destruct Hes as [[-> Hc] | (-> & Hc & _)].
    + rewrite app_nil_r, bool_decide_false; [lia |].
      intros [_ ?]. congruence.
    + rewrite buildCount_snoc. cbn [isBuildOf]. f_equal.
      destruct (decide (name = n)) as [-> | Hne].
      * by rewrite !bool_decide_true.
      * rewrite !bool_decide_false; [done | | done]. intros [? _]. done.
Qed.

(** The three builds of [generateCSS] without a layer. *)
Lemma buildAll_shape (s : State) :
  let rb := buildLayerCss buildSheet Base s in
  let rc := buildLayerCss buildSheet Components rb.2 in
  let ru := buildLayerCss buildSheet Utilities rc.2 in
  cssCache (l_base (layers ru.2)) = Some rb.1
  ∧ cssCache (l_components (layers ru.2)) = Some rc.1
  ∧ cssCache (l_utilities (layers ru.2)) = Some ru.1
  ∧ layerStylesMap ru.2 = layerStylesMap s
  ∧ options ru.2 = options s
  ∧ classesPending ru.2 = classesPending s
  ∧ tagsPending ru.2 = tagsPending s
  ∧ (coherent buildSheet s →
     rb.1 = layerText buildSheet Base s
     ∧ rc.1 = layerText buildSheet Components s
     ∧ ru.1 = layerText buildSheet Utilities s).
Proof.
  intros rb rc ru.
  destruct (buildLayerCss_shape Base s) as (eb & Hb & _).
  destruct (buildLayerCss_shape Components rb.2) as (ec & Hc & _).
  destruct (buildLayerCss_shape Utilities rc.2) as (eu & Hu & _).
  fold rb in Hb, Hc. fold rc in Hc, Hu. fold ru in Hu.
  assert (layerStylesMap rb.2 = layerStylesMap s
          ∧ options rb.2 = options s) as [Hmb Hob] by (by rewrite Hb).
  assert (layerStylesMap rc.2 = layerStylesMap s
          ∧ options rc.2 = options s) as [Hmc Hoc]
    by (rewrite Hc; simpl; done).
  split_and!.
  - rewrite Hu, Hc, Hb. done.
  - rewrite Hu, Hc. done.
  - rewrite Hu. done.
  - rewrite Hu. simpl. done.
  - rewrite Hu. simpl. done.
  - rewrite Hu, Hc, Hb. done.
  - rewrite Hu, Hc, Hb. done.
  - intros Hcoh.
    destruct (buildLayerCss_coherent buildSheet Base s Hcoh)
      as (Htb & _ & _ & Hcb).
    destruct (buildLayerCss_coherent buildSheet Components _ Hcb)
      as (Htc & _ & _ & Hcc).
    destruct (buildLayerCss_coherent buildSheet Utilities _ Hcc)
      as (Htu & _).
    split_and!; [exact Htb | |].
    + etrans; [exact Htc |]. fold rb.
      unfold layerText, layerChildren. by rewrite Hmb, Hob.
    + etrans; [exact Htu |]. fold rb. fold rc.
      unfold layerText, layerChildren. by rewrite Hmc, Hoc.
Qed.

End Texts.

Lemma hooks_layers (s : State) :
  let s' := afterGenerate (beforeGenerate s) in
  layers s' = layers s ∧ layerStylesMap s' = layerStylesMap s
  ∧ options s' = options s
  ∧ ∀ name, buildCount name (trace s') = buildCount name (trace s).
Proof.
  unfold afterGenerate, beforeGenerate.
  destruct (has_onBeforeGenerate (options s)); cbn [options emit];
    destruct (has_onGenerated (options s)); cbn [layers layerStylesMap
      options trace emit]; split_and!; try done; intros name;
    rewrite ?buildCount_snoc; simpl; lia.
Qed.

Section Generate.

Variable htmlTags : list string.
Variable preflightTags : list string.
Variable kebabCase : string → string.
Variable buildSheet : bool → bool → list Style → string.
Variable newProcessor : ResolvedOptions → Processor.
Variable trim : string → string.


(** X15: when a [generateCSS] call leaves nothing to compile, the same
    call made again returns the same text from the cache: no sheet is built,
    the compiler is not called, and only the hooks leave events. *)
Theorem generateCSS_repeated (layer : option LayerName) (s s' : State)
    (now1 now2 : Z) (css : string) :
  generateCSS buildSheet trim now1 now2 layer s = Some (css, s') →
  nothingToCompile s' →
  ∀ now3 now4,
    generateCSS buildSheet trim now3 now4 layer s'
    = Some (css, afterGenerate (beforeGenerate s'))
    ∧ layers (afterGenerate (beforeGenerate s')) = layers s'
    ∧ ∀ name, buildCount name (trace (afterGenerate (beforeGenerate s')))
              = buildCount name (trace s').
Proof.
  intros Hg Hidle now3 now4.
  destruct (hooks_layers s') as (Hl & _ & _ & Hn).
  split; [| done]. unfold generateCSS in *.
  apply bind_Some in Hg as (s1 & _ & Hg).
  destruct (buildPendingStyles_idle now3 now4 s' Hidle) as (-> & _).
  cbn [mbind option_bind].
  set (s2 := afterGenerate (beforeGenerate s')) in *.
  destruct layer as [name |].
  - injection Hg as Hg.
    destruct (buildLayerCss_shape buildSheet name s1) as (es & Hs & _).
    rewrite Hg in Hs. cbn [fst snd] in Hs.
    rewrite (buildLayerCss_cached buildSheet name s2 css); [done |].
    rewrite Hl, Hs. cbn [layers]. by rewrite layer_get_set, decide_True.
  - pose proof (buildAll_shape buildSheet s1) as Hall. cbv zeta in Hall.
    destruct (buildLayerCss buildSheet Base s1) as [b sb].
    cbn [fst snd] in Hall.
    destruct (buildLayerCss buildSheet Components sb) as [c sc].
    cbn [fst snd] in Hall.
    destruct (buildLayerCss buildSheet Utilities sc) as [u su].
    cbn [fst snd] in Hall. destruct Hall as (Hb & Hc & Hu & _).
    injection Hg as <- <-.
    rewrite (buildLayerCss_cached buildSheet Base s2 b)
      by (by rewrite Hl).
    rewrite (buildLayerCss_cached buildSheet Components s2 c)
      by (by rewrite Hl).
    rewrite (buildLayerCss_cached buildSheet Utilities s2 u)
      by (by rewrite Hl).
    done.
Qed.

End Generate.

(** ** Invariants of every operation *)

Lemma compileClasses_classes (now : Z) (s s' : State) :
  compileClasses now s = Some s' →
  (classesPending s' = classesPending s
   ∧ classesGenerated s' = classesGenerated s)
  ∨ classesPending s' = [].
Proof.
  unfold compileClasses. destruct (bool_decide (JsSet.size _ = 0));
    [intros [= <-]; by left |].
  destruct (processor s) as [p |]; [| done]. simpl.
  destruct (bool_decide (length (success _) = 0)); intros [= <-];
    [by left | by right].
Qed.

Lemma compileTags_core (now : Z) (s s' : State) :
  compileTags now s = Some s' →
  processor s' = processor s ∧ completions s' = completions s.
Proof.
  unfold compileTags. destruct (enablePreflight (options s));
    [| by intros [= <-]].
  destruct (includeAll _ || _); [| by intros [= <-]].
  destruct (processor s) as [p |] eqn:Hp; [| done]. simpl.
  by intros [= <-].
Qed.

Lemma buildPendingStyles_core (now1 now2 : Z) (s s' : State) :
  buildPendingStyles now1 now2 s = Some s' →
  processor s' = processor s
  ∧ completions s' = completions s
  ∧ ((classesPending s' = classesPending s
      ∧ classesGenerated s' = classesGenerated s)
     ∨ classesPending s' = []).
Proof.
  rewrite buildPendingStyles_unfold. intros Hb.
  apply bind_Some in Hb as (s1 & H1 & Hb).
  apply bind_Some in Hb as (s2 & H2 & [= <-]).
  destruct (beforeGenerate_emit s) as (es0 & H0).
  destruct (compileClasses_frame _ _ _ H1) as (_ & _ & _ & _ & Hp1 & Hc1 & _).
  pose proof (compileClasses_classes _ _ _ H1) as Hcl.
  rewrite H0 in Hp1, Hc1, Hcl.
  cbn [processor completions classesPending classesGenerated] in *.
  destruct (compileTags_core _ _ _ H2) as (Hp2 & Hc2).
  destruct (compileTags_classes _ _ _ H2) as (Hcp2 & Hcg2 & _).
  destruct (afterGenerate_emit s2) as (es2 & ->).
  cbn [processor completions classesPending classesGenerated].
  split_and!; [congruence | congruence |].
  destruct Hcl as [[? ?] | ?]; [left; split; congruence | right; congruence].
Qed.

Section Always.

Variable htmlTags : list string.
Variable preflightTags : list string.
Variable kebabCase : string → string.
Variable buildSheet : bool → bool → list Style → string.
Variable newProcessor : ResolvedOptions → Processor.
Variable trim : string → string.

(** What a call does to the processor, the completions and the class
    registry: it keeps the first two, or leaves no completions; it keeps the
    class sets, or only adds tokens [addClasses] lets in, or leaves none
    pending, or none generated. *)
Lemma runCall_core (c : Call) (s s' : State) :
  runCall htmlTags preflightTags kebabCase buildSheet newProcessor trim c s
  = Some s' →
  ((processor s' = processor s ∧ completions s' = completions s)
   ∨ completions s' = None
   ∨ (processor s' = processor s
      ∧ ∃ p, processor s = Some p
             ∧ completions s' = Some (generateCompletions p)))
  ∧ ((classesPending s' = classesPending s
      ∧ classesGenerated s' = classesGenerated s)
     ∨ (∃ classes, s' = (addClasses classes s).2)
     ∨ classesPending s' = []
     ∨ classesGenerated s' = []).
Proof.
  destruct c; cbn [runCall]; intros Hr.
  - injection Hr as <-. split; [| right; left; by eexists].
    left. by rewrite (addClasses_keeps_tags classes s).
  - injection Hr as <-.
    rewrite (addTags_keeps_classes kebabCase tags s). auto.
  - apply (inj Some) in Hr. subst s'.
    destruct (clearCache_rest htmlTags preflightTags clearAll s)
      as (_ & -> & _).
    destruct (clearCache_classes htmlTags preflightTags clearAll s)
      as (-> & _). auto.
  - injection Hr as <-.
    rewrite (updateLayers_frame now styles filepath replace s). auto.
  - injection Hr as <-.
    destruct (buildLayerCss_shape buildSheet name s) as (es & -> & _). auto.
  - destruct (buildPendingStyles_core _ _ _ _ Hr) as (? & ? & [? | ?]); auto.
  - apply fmap_Some in Hr as ([css s1] & Hg & ->). unfold generateCSS in Hg.
    apply bind_Some in Hg as (s0 & H0 & Hg).
    destruct (buildPendingStyles_core _ _ _ _ H0) as (Hp & Hc & Hcl).
    assert (processor s1 = processor s0 ∧ completions s1 = completions s0
            ∧ classesPending s1 = classesPending s0
            ∧ classesGenerated s1 = classesGenerated s0) as (? & ? & ? & ?).
    { destruct layer as [name |].
      - injection Hg as Hg.
        destruct (buildLayerCss_shape buildSheet name s0) as (es & Hs & _).
        rewrite Hg in Hs. cbn [snd] in Hs. by rewrite Hs.
      - destruct (buildLayerCss_shape buildSheet Base s0) as (eb & Hb & _).
        destruct (buildLayerCss buildSheet Base s0) as [b sb].
        cbn [fst snd] in Hb.
        destruct (buildLayerCss_shape buildSheet Components sb)
          as (ec & Hk & _).
        destruct (buildLayerCss buildSheet Components sb) as [k sk].
        cbn [fst snd] in Hk.
        destruct (buildLayerCss_shape buildSheet Utilities sk)
          as (eu & Hu & _).
        destruct (buildLayerCss buildSheet Utilities sk) as [u su].
        cbn [fst snd] in Hu. injection Hg as _ <-.
        rewrite Hu, Hk, Hb. done. }
    cbn [snd]. split; [left; split; congruence |].
    destruct Hcl as [[? ?] | ?];
      [left; split; congruence | right; right; left; congruence].
  - apply fmap_Some in Hr as ([l s1] & Hg & ->). unfold getCompletions in Hg.
    destruct (completions s) eqn:Hc; [injection Hg as <- <-; auto |].
    destruct (processor s) as [p |] eqn:Hp; [| done]. simpl in Hg.
    injection Hg as <- <-. cbn [snd]. split; [| auto].
    right. right. split; [done |]. by exists p.
  - injection Hr as <-. simpl. auto.
  - injection Hr as <-. unfold ensureInit.
    destruct (processor s) eqn:Hp; [simpl; rewrite Hp; auto |].
    destruct (_promise_init s); simpl; rewrite ?Hp; auto.
  - injection Hr as <-. destruct r as [reason | o]; cbn [_init_resume].
    + simpl. auto.
    + unfold settle. split; [right; left | right; right; right];
        by destruct (has_onInitialized o).
Qed.

Lemma runCalls_invariants (cs : list Call) (s s' : State) :
  runCalls htmlTags preflightTags kebabCase buildSheet newProcessor trim cs s
  = Some s' →
  completionsCurrent s ∧ disjointSets (classesGenerated s) (classesPending s) →
  completionsCurrent s'
  ∧ disjointSets (classesGenerated s') (classesPending s').
Proof.
  revert s. induction cs as [| c cs IH]; intros s Hr Hinv; cbn [runCalls] in Hr.
  - by injection Hr as <-.
  - apply bind_Some in Hr as (s1 & H1 & Hr). apply (IH s1 Hr).
    destruct Hinv as (Hcc & Hd).
    destruct (runCall_core c s s1 H1) as (Hcore & Hcl). split.
    + intros l Hl. destruct Hcore as [[Hp Hc] | [Hc | (Hp & p & Hp' & Hc)]].
      * rewrite Hp. apply Hcc. congruence.
      * congruence.
      * exists p. split; congruence.
    + destruct Hcl as [[-> ->] | [[classes ->] | [-> | ->]]]; try done.
      * by apply addClasses_disjoint.
      * intros t _ Ht. by apply elem_of_nil in Ht.
      * intros t Ht. by apply elem_of_nil in Ht.
Qed.

(** X16: in every state the module can reach, the completions kept are
    those of the current processor, so [getCompletions] never answers with
    the completions of a processor that an initialization has replaced, and
    asked again it gives the same answer. *)
Theorem getCompletions_current (o : ResolvedOptions) (cs : list Call)
    (s : State) :
  runCalls htmlTags preflightTags kebabCase buildSheet newProcessor trim cs
    (initial o) = Some s →
  completionsCurrent s
  ∧ (∀ c s', getCompletions s = Some (c, s') →
             ∃ p, processor s = Some p ∧ c = generateCompletions p
                  ∧ getCompletions s' = Some (c, s')).
Proof.
  intros Hr.
  destruct (runCalls_invariants cs (initial o) s Hr) as (Hcc & _).
  { split; [intros c Hc; done |]. intros t Ht. by apply elem_of_nil in Ht. }
  split; [done |].
  intros c s' Hg. unfold getCompletions in *.
  destruct (completions s) as [c' |] eqn:Hc.
  - injection Hg as <- <-. rewrite Hc.
    destruct (Hcc c' Hc) as (p & ? & ?). by exists p.
  - destruct (processor s) as [p |]; [| done]. simpl in Hg.
    injection Hg as <- <-. by exists p.
Qed.

(** X17: in every state the module can reach, whatever operations led to
    it, no class is both generated and pending. *)
Theorem classes_disjoint_always (o : ResolvedOptions) (cs : list Call)
    (s : State) :
  runCalls htmlTags preflightTags kebabCase buildSheet newProcessor trim cs
    (initial o) = Some s →
  disjointSets (classesGenerated s) (classesPending s).
Proof.
  intros Hr.
  destruct (runCalls_invariants cs (initial o) s Hr) as (_ & Hd); [| done].
  split; [intros c Hc; done |]. intros t Ht. by apply elem_of_nil in Ht.
Qed.

End Always.

(** ** More on the initialization coordinator *)

Section InitAgain.

Variable htmlTags : list string.
Variable preflightTags : list string.
Variable newProcessor : ResolvedOptions → Processor.

Lemma init_shape (s : State) :
  let r := init s in
  r.1 = length (promises s)
  ∧ r.2 = mkState (options s) (processor s) (completions s) (files s)
            (classesGenerated s) (classesPending s) (tagsGenerated s)
            (tagsPending s) (attrsGenerated s) (tagsAvailable s)
            (layers s) (layerStylesMap s) (Some (length (promises s)))
            (promises s ++ [Pending])
            (trace s ++ [EvResolveOptions (length (promises s))]).
Proof. done. Qed.

Lemma _init_resume_shape (pid : nat) (o : ResolvedOptions) (s : State) :
  let s' := _init_resume htmlTags preflightTags newProcessor pid (inr o) s in
  options s' = o
  ∧ processor s' = Some (newProcessor o)
  ∧ files s' = []
  ∧ _promise_init s' = _promise_init s
  ∧ promises s' = <[pid := Fulfilled (newProcessor o)]> (promises s).
Proof.
  cbn [_init_resume]. unfold settle.
  by destruct (has_onInitialized o).
Qed.

(** X18: [init] never waits for an initialization in flight: two calls
    enter the routine twice and store the promise of the second.  The
    options and the processor are those of the initialization that settles
    last, so when the first one settles after the second, [ensureInit]
    answers with the processor of the first while the stored promise holds
    the processor of the second. *)
Theorem init_last_settled_wins (s : State) (o0 o1 : ResolvedOptions) :
  let r0 := init s in
  let r1 := init r0.2 in
  let s3 :=
    _init_resume htmlTags preflightTags newProcessor r1.1 (inr o1) r1.2 in
  let s4 :=
    _init_resume htmlTags preflightTags newProcessor r0.1 (inr o0) s3 in
  r1.1 = S r0.1
  ∧ _promise_init r1.2 = Some r1.1
  ∧ initCount (trace r1.2) = initCount (trace s) + 2
  ∧ options s4 = o0
  ∧ processor s4 = Some (newProcessor o0)
  ∧ _promise_init s4 = Some r1.1
  ∧ promises s4 !! r1.1 = Some (Fulfilled (newProcessor o1))
  ∧ promises s4 !! r0.1 = Some (Fulfilled (newProcessor o0))
  ∧ ensureInit s4 = (Ready (newProcessor o0), s4).
Proof.
  intros r0 r1 s3 s4.
  destruct (init_shape s) as (H0 & Hs0). fold r0 in H0, Hs0.
  destruct (init_shape r0.2) as (H1 & Hs1). fold r1 in H1, Hs1.
  assert (promises r1.2 = (promises s ++ [Pending; Pending])%list) as Hps.
  { rewrite Hs1. cbn [promises]. rewrite Hs0. cbn [promises].
    by rewrite <- app_assoc. }
  assert (r1.1 = S r0.1) as H10.
  { rewrite H1, H0, Hs0. cbn [promises]. rewrite length_app. simpl. lia. }
  destruct (_init_resume_shape r1.1 o1 r1.2) as (_ & _ & _ & Hi3 & Hp3).
  fold s3 in Hi3, Hp3.
  destruct (_init_resume_shape r0.1 o0 s3) as (Ho4 & Hpr4 & _ & Hi4 & Hp4).
  fold s4 in Ho4, Hpr4, Hi4, Hp4.
  assert (_promise_init r1.2 = Some r1.1) as Hi1
    by (rewrite Hs1 at 1; cbn [_promise_init]; by rewrite H1).
  split_and!; try done.
  - rewrite Hs1. cbn [trace]. rewrite Hs0. cbn [trace].
    rewrite !initCount_snoc. simpl. lia.
  - congruence.
  - rewrite Hp4, Hp3, Hps, H10, H0.
    rewrite list_lookup_insert_ne by lia.
    rewrite list_lookup_insert_eq by (rewrite length_app; simpl; lia).
    done.
  - rewrite Hp4, Hp3, Hps, H10, H0.
    rewrite list_lookup_insert_eq; [done |].
    rewrite length_insert, length_app. simpl. lia.
  - by apply ensureInit_ready.
Qed.





End InitAgain.

(** ** Scan targets *)

Lemma append_String (a : ascii) (s r : string) :
  String a s +:+ r = String a (s +:+ r).
Proof. done. Qed.

Lemma afterWord_Some (w s rest : string) :
  afterWord w s = Some rest
  ↔ ∃ ext, s = ext +:+ rest ∧ lowerString ext = w.
Proof.
  revert s. induction w as [| a w IH]; intros s; cbn [afterWord].
  - split.
    + intros [= ->]. by exists "".
    + intros (ext & -> & Hl). by destruct ext.
  - destruct s as [| b s].
    + split; [done |]. intros (ext & He & Hl). by destruct ext.
    + destruct (decide (lowerChar b = a)) as [<- | Hne].
      * rewrite IH. split.
        -- intros (ext & -> & <-). by exists (String b ext).
        -- intros (ext & He & Hl). destruct ext as [| b' ext]; [done |].
           cbn [lowerString] in Hl. rewrite append_String in He.
           injection He as <- ->. injection Hl as Hl. by exists ext.
      * split; [done |]. intros (ext & He & Hl).
        destruct ext as [| b' ext]; [done |].
        cbn [lowerString] in Hl. rewrite append_String in He.
        injection He as <- _. by injection Hl as ? _.
Qed.

Lemma endOrQuery_true (rest : string) :
  endOrQuery rest = true ↔ rest = "" ∨ ∃ query, rest = "?" +:+ query.
Proof.
  destruct rest as [| c rest]; cbn [endOrQuery].
  - split; [by left | done].
  - rewrite bool_decide_eq_true. split.
    + intros ->. right. by exists rest.
    + intros [? | (query & H)]; [done |]. by injection H.
Qed.

Lemma extensionHere_true (s : string) :
  extensionHere s = true
  ↔ ∃ ext rest, s = ext +:+ rest ∧ lowerString ext ∈ cssExtensions
                ∧ (rest = "" ∨ ∃ query, rest = "?" +:+ query).
Proof.
  unfold extensionHere. rewrite existsb_exists. split.
  - intros (w & Hw & H). destruct (afterWord w s) as [rest |] eqn:E; [| done].
    apply afterWord_Some in E as (ext & -> & <-). exists ext, rest.
    split_and!; [done | by apply list_elem_of_In | by apply endOrQuery_true].
  - intros (ext & rest & -> & Hw & Hr). exists (lowerString ext).
    split; [by apply list_elem_of_In |].
    assert (afterWord (lowerString ext) (ext +:+ rest) = Some rest) as ->
      by (apply afterWord_Some; by exists ext).
    by apply endOrQuery_true.
Qed.

Lemma cssPattern_true (id : string) :
  cssPattern id = true ↔ hasCssExtension id.
Proof.
  unfold hasCssExtension. induction id as [| c id IH]; cbn [cssPattern].
  - split; [done |]. intros (before & ext & rest & H & _).
    by destruct before.
  - rewrite orb_true_iff, andb_true_iff, bool_decide_eq_true, IH,
      extensionHere_true.
    split.
    + intros [[-> (ext & rest & -> & ? & ?)] | (before & ext & rest & -> & ? & ?)].
      * by exists "", ext, rest.
      * by exists (String c before), ext, rest.
    + intros (before & ext & rest & H & ? & ?).
      destruct before as [| b before].
      * injection H as -> ->. left. split; [done |]. by exists ext, rest.
      * rewrite append_String in H. injection H as -> ->.
        right. by exists before, ext, rest.
Qed.

Lemma indexOf_append (c : ascii) (s q : string) :
  indexOf c s = None →
  indexOf c (s +:+ String c q) = Some (String.length s).
Proof.
  induction s as [| a s IH]; simpl.
  - intros _. by rewrite decide_True.
  - destruct (decide (a = c)); [done |].
    destruct (indexOf c s); [done |]. intros _. by rewrite IH.
Qed.

Lemma indexOf_snoc (c d : ascii) (s : string) :
  indexOf c s = None → d ≠ c →
  indexOf c (s +:+ String d "") = None.
Proof.
  intros Hs Hd. induction s as [| a s IH]; simpl in *.
  - by rewrite decide_False.
  - destruct (decide (a = c)); [done |].
    destruct (indexOf c s); [done |]. by rewrite IH.
Qed.

Lemma substring_append (s r : string) :
  String.substring 0 (String.length s) (s +:+ r) = s.
Proof.
  induction s as [| a s IH]; simpl.
  - by destruct r.
  - f_equal. exact IH.
Qed.

Lemma length_snoc (s : string) (d : ascii) :
  String.length (s +:+ String d "") - 1 = String.length s.
Proof.
  induction s as [| a s IH]; simpl; [done |].
  destruct s; simpl in *; lia.
Qed.

Lemma prefix_true (p s : string) :
  String.prefix p s = true ↔ ∃ rest, s = p +:+ rest.
Proof.
  revert s. induction p as [| a p IH]; intros s.
  - split; [intros _; by exists s | by destruct s].
  - destruct s as [| b s]; simpl.
    + split; [done |]. by intros (rest & ?).
    + destruct (Ascii.ascii_dec a b) as [-> | Hne].
      * rewrite IH. split.
        -- intros (rest & ->). by exists rest.
        -- intros (rest & H). rewrite append_String in H.
           injection H as ->. by exists rest.
      * split; [done |]. intros (rest & H). rewrite append_String in H.
        by injection H as ? _.
Qed.

Section Targets.

Variable slash : string → string.
Variable isMatch : string → list string → bool.
Variable contains : string → list string → bool.
Variable x : HostOptions.

(** X20: [isCssTransformTarget] holds exactly of the ids that are not
    excluded and have, somewhere, a dot followed by [postcss], [scss],
    [sass], [css], [stylus] or [less] in any letter case, followed by the
    end of the id or by a question mark. *)
Theorem isCssTransformTarget_iff (id : string) :
  isCssTransformTarget slash contains x id = true
  ↔ hasCssExtension id ∧ isExcluded slash contains x id = false.
Proof.
  unfold isCssTransformTarget. rewrite <- cssPattern_true.
  destruct (cssPattern id); destruct (isExcluded slash contains x id);
    simpl; intuition congruence.
Qed.

(** X21: a file found by the scan is a detect target whatever the include
    and exclude patterns say, and so is its path followed by a query; so is,
    when the path has no question mark, the path followed by any one
    character, since the id is then cut one character short.  An id that is
    neither is judged by the patterns, on its slashed form. *)
Theorem isDetectTarget_scanned (s : State) (file : string) :
  file ∈ files s →
  isDetectTarget slash isMatch contains x s file = true
  ∧ (indexOf "?" file = None →
     (∀ query,
        isDetectTarget slash isMatch contains x s (file +:+ "?" +:+ query)
        = true)
     ∧ (∀ c, c ≠ "?"%char →
             isDetectTarget slash isMatch contains x s
               (file +:+ String c "") = true))
  ∧ (∀ id, id ∉ files s → sliceTo id (indexOf "?" id) ∉ files s →
           isDetectTarget slash isMatch contains x s id
           = isMatch (slash (slash id)) (scan_include x)
             && negb (contains (slash (slash id)) (scan_exclude x))).
Proof.
  intros Hf. unfold isDetectTarget. split_and!.
  - by rewrite (bool_decide_true (file ∈ files s)).
  - intros Hq. split.
    + intros query. change ("?" +:+ query) with (String "?" query).
      rewrite (indexOf_append "?" file query Hq). cbn [sliceTo].
      rewrite substring_append, (bool_decide_true (file ∈ files s)) by done.
      by rewrite orb_true_r.
    + intros c Hc. rewrite (indexOf_snoc "?" c file Hq Hc). cbn [sliceTo].
      rewrite length_snoc, substring_append.
      rewrite (bool_decide_true (file ∈ files s)) by done.
      by rewrite orb_true_r.
  - intros id H1 H2. by rewrite !bool_decide_false.
Qed.

(** X22: with the scan enabled, the scan targets are exactly the ids that
    start with the path of a scanned file, so none before the scan has found
    a file, and the patterns are not consulted; with the scan disabled they
    are the detect targets. *)
Theorem isScanTarget_iff (s : State) (id : string) :
  (opt_enableScan x = true →
   (isScanTarget slash isMatch contains x s id = true
    ↔ ∃ file rest, file ∈ files s ∧ id = file +:+ rest)
   ∧ (files s = [] → isScanTarget slash isMatch contains x s id = false))
  ∧ (opt_enableScan x = false →
     isScanTarget slash isMatch contains x s id
     = isDetectTarget slash isMatch contains x s id).
Proof.
  unfold isScanTarget. split; intros ->; [| done]. split.
  - rewrite existsb_exists. unfold startsWith. split.
    + intros (file & Hf & Hp). apply prefix_true in Hp as (rest & ->).
      exists file, rest. split; [by apply list_elem_of_In | done].
    + intros (file & rest & Hf & ->). exists file.
      split; [by apply list_elem_of_In |]. apply prefix_true. by exists rest.
  - by intros ->.
Qed.

End Targets.

(** ** Style files *)

Section StyleFiles.

Variable partition :
  (CssNode → bool) → list CssNode → list CssNode * list CssNode.
Variable parseCss : string → option Processor → list CssNode.
Variable buildCss : list CssNode → string.
Variable x : HostOptions.

(** X23: [transformCSS] hands the text back untouched when the option is
    off.  When the partition of the parsed sheet yields no layer block, the
    state is left as it is, so blocks the file contributed before stay
    stored and cached, and the text is built from the whole sheet.
    Otherwise the blocks replace the contribution of the file, the layers
    of the old and of the new blocks lose their cached text, the text is
    built from the other nodes and [onLayerUpdated] is called. *)
Theorem transformCSS_layer_blocks (now : Z) (css id : string) (s : State) :
  let children := parseCss css (processor s) in
  let parts := partition isLayerBlock children in
  let r := transformCSS partition parseCss buildCss x now css id s in
  (opt_transformCSS x = false → r = (css, s, false))
  ∧ (opt_transformCSS x = true → parts.1 = [] →
     r = (buildCss children, s, false))
  ∧ (opt_transformCSS x = true → parts.1 ≠ [] →
     r = (buildCss parts.2,
          updateLayers now (map node parts.1) id true s, true)
     ∧ JsMap.get (layerStylesMap r.1.2) id = Some (map node parts.1)
     ∧ (∀ k, k ≠ id → JsMap.get (layerStylesMap r.1.2) k
                      = JsMap.get (layerStylesMap s) k)
     ∧ (∀ name,
          layer_string name ∈ map meta_type (map node parts.1)
          ∨ layer_string name
            ∈ map meta_type (default [] (JsMap.get (layerStylesMap s) id)) →
          layer_get (layers r.1.2) name = mkLayerMeta None (Some now))).
Proof.
  intros children parts r. subst r. unfold transformCSS. fold children.
  split_and!.
  - by intros ->.
  - intros -> Hnil. cbn [negb]. fold parts.
    destruct parts as [layerBlocks blocks]. cbn [fst] in Hnil. by subst.
  - intros -> Hne. cbn [negb]. fold parts.
    destruct parts as [layerBlocks blocks]. cbn [fst snd] in *.
    rewrite bool_decide_false by (by destruct layerBlocks).
    cbn [fst snd]. split_and!.
    + done.
    + by rewrite updateLayers_map, get_set_eq.
    + intros k Hk. by rewrite updateLayers_map, get_set_ne.
    + intros name Hn. rewrite updateLayers_layer.
      assert (JsSet.has (touchedLayers (map node layerBlocks) id true s)
                (layer_string name) = true) as ->; [| done].
      apply touchedLayers_has. destruct Hn; auto.
Qed.

End StyleFiles.

(** ** The further properties on the small configurations *)

Lemma reached_by_calls :
  runCalls Demo.htmlTags Demo.preflightTags Demo.kebabCase Demo.buildSheet
    Demo.newProcessor Demo.trim Demo.calls (initial Demo.opts)
  = Some Demo.reached.
Proof. vm_compute. reflexivity. Qed.

(** The tag [a] is moved and is no longer available. *)
Lemma addTags_moves_witness :
  "a" ∈ tagsAvailable Demo.ready
  ∧ "a" ∉ tagsAvailable (addTags Demo.kebabCase ["a"] Demo.ready).2.
Proof.
  split; [apply has_true; reflexivity |].
  destruct (addTags_moves Demo.kebabCase ["a"] Demo.ready)
    as ((moved & Hr & _ & Hm & _) & _).
  assert (moved = ["a"]) as ->.
  { apply (f_equal tagsPending) in Hr.
    change (["html"; "body"; "div"; "a"]
            = (["html"; "body"; "div"] ++ moved)%list) in Hr.
    by injection Hr as <-. }
  destruct (Hm "a") as (_ & _ & _ & H & _); [by left | exact H].
Defined.

(** With preflight off and every tag included, the tags are not read. *)
Lemma extractFile_resume_unchanged_iff_witness :
  (extractFile_resume Demo.kebabCase (Some ["p-4"]) (Some ["a"])
     Sample.readyOff).2
  = (addClasses ["p-4"] Sample.readyOff).2.
Proof.
  destruct (extractFile_resume_unchanged_iff Demo.kebabCase (Some ["p-4"])
              (Some ["a"]) Sample.readyOff) as (_ & H).
  exact (proj2 (H eq_refl eq_refl)).
Defined.

(** The first transformer answers [null], the second marks the text. *)
Lemma extractFile_begin_transformers_witness :
  extractFile_begin Sample.transformGroups Sample.host "p-4" (Some "a.vue")
    true
  = "p-4/*seen*/".
Proof.
  destruct (extractFile_begin_transformers Sample.transformGroups Sample.host
              "p-4" true) as (_ & _ & H & _).
  rewrite (H "a.vue"); [reflexivity | discriminate].
Defined.

(** After a reload [p-4] is compiled again and stored after its old node. *)
Lemma reload_stores_after_old_nodes_witness :
  ∃ s2, buildPendingStyles 8 9
          (clearCache Demo.htmlTags Demo.preflightTags false Demo.compiled)
        = Some s2
        ∧ JsMap.get (layerStylesMap s2) "__classes"
          = Some [mkStyle "utilities" ".p-4{padding:1rem}";
                  mkStyle "utilities" ".p-4{padding:1rem}"].
Proof.
  destruct (reload_stores_after_old_nodes Demo.htmlTags Demo.preflightTags
              8 9 Demo.compiled Demo.proc) as (_ & s2 & Hb & Hg & _).
  - reflexivity.
  - vm_compute. discriminate.
  - vm_compute. discriminate.
  - exists s2. split; [exact Hb | exact Hg].
Defined.

(** The three tags pending after the initialization get their preflight. *)
Lemma preflight_compiles_pending_tags_witness :
  ∃ s', buildPendingStyles 5 6 Demo.ready = Some s' ∧ tagsPending s' = [].
Proof.
  destruct (preflight_compiles_pending_tags 5 6 Demo.ready Demo.proc)
    as (s' & Hb & Hp & _).
  - reflexivity.
  - reflexivity.
  - reflexivity.
  - vm_compute. discriminate.
  - exists s'. split; [exact Hb | exact Hp].
Defined.

(** The whole preflight is stored by the first call already. *)
Lemma includeAll_appends_every_call_witness :
  ∃ s1, buildPendingStyles 5 6 Sample.readyAll = Some s1
        ∧ JsMap.get (layerStylesMap s1) "__preflights"
          = Some [mkStyle "base" "a{color:inherit}"].
Proof.
  destruct (includeAll_appends_every_call 5 6 Sample.readyAll Demo.proc)
    as (s1 & Hb & Hg & _).
  - reflexivity.
  - reflexivity.
  - reflexivity.
  - exists s1. split; [exact Hb | exact Hg].
Defined.

(** After the compilation nothing is pending and the next call is idle. *)
Lemma buildPendingStyles_idle_witness :
  buildPendingStyles 8 9 Demo.compiled
  = Some (afterGenerate (beforeGenerate Demo.compiled)).
Proof.
  refine (proj1 (buildPendingStyles_idle 8 9 Demo.compiled _)).
  split; [reflexivity |]. right. split; reflexivity.
Defined.

(** With preflight off the tags of the initialization stay pending. *)
Lemma preflight_off_keeps_tags_witness :
  tagsPending Sample.readyOff = ["html"; "body"; "div"]
  ∧ hasPending Sample.readyOff = true.
Proof.
  split; [reflexivity |].
  destruct (preflight_off_keeps_tags 5 6 Sample.readyOff Sample.readyOff)
    as (_ & _ & _ & _ & H).
  - reflexivity.
  - vm_compute. reflexivity.
  - apply H. vm_compute. discriminate.
Defined.

(** Building the base layer leaves the utilities layer alone. *)
Lemma buildLayerCss_only_caches_witness :
  layer_get (layers (buildLayerCss Demo.buildSheet Base Demo.edited).2)
    Utilities
  = layer_get (layers Demo.edited) Utilities.
Proof.
  destruct (buildLayerCss_only_caches Demo.buildSheet Base Demo.edited)
    as (_ & _ & H & _).
  apply H. discriminate.
Defined.

Lemma page_by_generateCSS :
  generateCSS Demo.buildSheet Demo.trim 8 9 None Demo.reached
  = Some (Sample.page.1, Sample.page.2).
Proof. vm_compute. reflexivity. Qed.


(** Asked again, the page comes from the cache. *)
Lemma generateCSS_repeated_witness :
  generateCSS Demo.buildSheet Demo.trim 10 11 None Sample.page.2
  = Some (Sample.page.1, afterGenerate (beforeGenerate Sample.page.2)).
Proof.
  refine (proj1 (generateCSS_repeated Demo.buildSheet Demo.trim None
                   Demo.reached Sample.page.2 8 9 Sample.page.1
                   page_by_generateCSS _ 10 11)).
  split; [vm_compute; reflexivity |].
  right. split; vm_compute; reflexivity.
Defined.

(** The state of the demo run holds no stale completions. *)
Lemma getCompletions_current_witness :
  completionsCurrent Demo.reached.
Proof.
  exact (proj1 (getCompletions_current Demo.htmlTags Demo.preflightTags
                  Demo.kebabCase Demo.buildSheet Demo.newProcessor Demo.trim
                  Demo.opts Demo.calls Demo.reached reached_by_calls)).
Defined.

(** The class sets of the demo run are disjoint. *)
Lemma classes_disjoint_always_witness :
  disjointSets (classesGenerated Demo.reached) (classesPending Demo.reached).
Proof.
  exact (classes_disjoint_always Demo.htmlTags Demo.preflightTags
           Demo.kebabCase Demo.buildSheet Demo.newProcessor Demo.trim
           Demo.opts Demo.calls Demo.reached reached_by_calls).
Defined.


(** The scanned file is a target with a query, and with one more letter. *)
Lemma isDetectTarget_scanned_witness :
  isDetectTarget Sample.slash Sample.isMatch Sample.contains Sample.host
    Sample.scanned "/src/App.vue?vue&type=style" = true
  ∧ isDetectTarget Sample.slash Sample.isMatch Sample.contains Sample.host
      Sample.scanned "/src/App.vuex" = true.
Proof.
  destruct (isDetectTarget_scanned Sample.slash Sample.isMatch
              Sample.contains Sample.host Sample.scanned "/src/App.vue")
    as (_ & H & _).
  - apply has_true. reflexivity.
  - destruct (H eq_refl) as (Hq & Hc). split.
    + exact (Hq "vue&type=style").
    + apply (Hc "x"%char). discriminate.
Defined.

(** An id that starts with the scanned path is a scan target. *)
Lemma isScanTarget_iff_witness :
  isScanTarget Sample.slash Sample.isMatch Sample.contains Sample.host
    Sample.scanned "/src/App.vue?used" = true.
Proof.
  destruct (isScanTarget_iff Sample.slash Sample.isMatch Sample.contains
              Sample.host Sample.scanned "/src/App.vue?used") as (H & _).
  destruct (H eq_refl) as (Hiff & _). apply Hiff.
  exists "/src/App.vue", "?used". split; [| reflexivity].
  apply has_true. reflexivity.
Defined.

(** The component block of the file replaces its contribution. *)
Lemma transformCSS_layer_blocks_witness :
  JsMap.get
    (layerStylesMap
       (transformCSS Sample.partition Sample.parseCss Sample.buildCss
          Sample.host 7 "@layer components{.btn{}} a{}" "a.css"
          Demo.edited).1.2) "a.css"
  = Some [mkStyle "components" ".btn{}"].
Proof.
  destruct (transformCSS_layer_blocks Sample.partition Sample.parseCss
              Sample.buildCss Sample.host 7 "@layer components{.btn{}} a{}"
              "a.css" Demo.edited) as (_ & _ & H).
  destruct H as (_ & Hg & _); [reflexivity | discriminate |].
  exact Hg.
Defined.
